(** * Change-detection engine of [backend/detect_change.py] and the geocoder
      of [backend/app.py]: a shallow embedding and its properties.

    Conventions of the embedding.
    - Python floats ([np.float32], [float]) are exact rationals [Q]; rounding
      error of the machine arithmetic is not modelled.  Division by zero, which
      numpy turns into [inf]/[nan], follows [Qdiv] (result [0]).
    - Python ints are [Z]; strings are [string].
    - A Python exception is a value [exn]; a call that may raise returns an
      [outcome].
    - OpenCV, base64 and the scikit-learn scorer are libraries outside the
      repository: they form the interface [Externals].  tenacity's retry loop,
      cachetools' [TTLCache] and [IsolationForest.predict] are small
      executable models of the behaviour of the calls the source makes.
    - What a call reads from the world around it (the cache timer, the wall
      clock, the file system as [os.makedirs] finds it, numpy's global random
      generator) is the [env] of the call. *)

From Stdlib Require Import String Ascii ZArith QArith Qround Lqa Lia List Bool.
From Stdlib Require Import DecimalString DecimalNat.
From Stdlib Require Import Sorted Permutation.
Import ListNotations.

Set Implicit Arguments.

(* ------------------------------------------------------------------ *)
(** ** Exceptions and the error monad *)

Inductive exn_class :=
| DetectionError   (* class DetectionError(Exception) of the module *)
| RetryError       (* tenacity.RetryError *)
| IndexError
| KeyError
| ValueError
| OSError          (* FileNotFoundError, PermissionError, ... *)
| LibraryError.    (* cv2.error, binascii.Error, TypeError, ... *)

Record exn := Exn { exn_cls : exn_class; exn_msg : string }.

Definition exn_class_eqb (a b : exn_class) : bool :=
  match a, b with
  | DetectionError, DetectionError | RetryError, RetryError
  | IndexError, IndexError | KeyError, KeyError | ValueError, ValueError
  | OSError, OSError | LibraryError, LibraryError => true
  | _, _ => false
  end.
Inductive outcome (A : Type) :=
| Return (a : A)
| Raise (e : exn).
Arguments Return {A} a.
Arguments Raise {A} e.

Definition obind {A B} (m : outcome A) (k : A -> outcome B) : outcome B :=
  match m with
  | Return a => k a
  | Raise e => Raise e
  end.

Declare Scope outcome_scope.
Delimit Scope outcome_scope with outcome.
Notation "x <- m ;; k" := (obind m (fun x => k))
  (at level 61, m at next level, right associativity) : outcome_scope.
Notation "' p <- m ;; k" := (obind m (fun p => k))
  (at level 61, p pattern, m at next level, right associativity) : outcome_scope.

(** [xs[i]] for a non-negative index. *)
Definition getitem {A} (xs : list A) (i : nat) : outcome A :=
  match nth_error xs i with
  | Some x => Return x
  | None => Raise (Exn IndexError "index out of bounds")
  end.

(** A list comprehension whose element expression may raise. *)
Fixpoint comprehension {A B} (f : A -> outcome B) (xs : list A) : outcome (list B) :=
  match xs with
  | [] => Return []
  | x :: xs' =>
      match f x with
      | Raise e => Raise e
      | Return y =>
          match comprehension f xs' with
          | Raise e => Raise e
          | Return ys => Return (y :: ys)
          end
      end
  end.

(* ------------------------------------------------------------------ *)
(** ** Two-dimensional float arrays *)

Module Array.

(** A 2-D [np.ndarray]: its shape and its elements in row-major order. *)
Record t := mk { shape : nat * nat; data : list Q }.

Definition shape_eqb (a b : nat * nat) : bool :=
  (fst a =? fst b)%nat && (snd a =? snd b)%nat.

Fixpoint zip_with (f : Q -> Q -> Q) (xs ys : list Q) : list Q :=
  match xs, ys with
  | x :: xs', y :: ys' => f x y :: zip_with f xs' ys'
  | _, _ => []
  end.

(** [a op b] for arrays: elementwise on equal shapes.  Operands of
    different shapes raise (numpy's broadcasting of unequal shapes is not
    used by the module: every operand pair is cut from rasters of one
    size). *)
Definition binop (f : Q -> Q -> Q) (a b : t) : outcome t :=
  if shape_eqb (shape a) (shape b)
  then Return (mk (shape a) (zip_with f (data a) (data b)))
  else Raise (Exn ValueError "operands could not be broadcast together").

(** [a op c] for an array and a Python scalar. *)
Definition scalar (f : Q -> Q -> Q) (a : t) (c : Q) : t :=
  mk (shape a) (map (fun x => f x c) (data a)).

Definition sub := binop Qminus.
Definition add := binop Qplus.
Definition div := binop Qdiv.

Definition sum (xs : list Q) : Q := fold_right Qplus 0 xs.

(** [np.mean] over all elements. *)
Definition mean (xs : list Q) : Q := sum xs / inject_Z (Z.of_nat (length xs)).

End Array.

(* ------------------------------------------------------------------ *)
(** ** Spectral indices: [compute_ndvi], [compute_ndbi] *)

Local Open Scope Q_scope.

(** The literal [1e-6]. *)
Definition eps : Q := 1 # 1000000.

(** [return (nir - red) / (nir + red + 1e-6)] *)
Definition compute_ndvi (nir red : Array.t) : outcome Array.t :=
  (num <- Array.sub nir red ;;
   s <- Array.add nir red ;;
   Array.div num (Array.scalar Qplus s eps))%outcome.

(** [nir = nir / 10000.0; swir = swir / 10000.0;
     return (swir - nir) / (swir + nir + 1e-6)] *)
Definition compute_ndbi (nir swir : Array.t) : outcome Array.t :=
  let nir := Array.scalar Qdiv nir 10000 in
  let swir := Array.scalar Qdiv swir 10000 in
  (num <- Array.sub swir nir ;;
   s <- Array.add swir nir ;;
   Array.div num (Array.scalar Qplus s eps))%outcome.

(* ------------------------------------------------------------------ *)
(** ** Geocoder: [_px_to_ll] of [app.py] *)

Module Geo.

(** [INDORE_BBOX]: (min-lon, min-lat, max-lon, max-lat). *)
Record bbox := mk { minx : Q; miny : Q; maxx : Q; maxy : Q }.

(** The default of [app.py] and the value of [configa_h.py];
    [try_imports] keeps the configured one when the import succeeds
    ([INDORE_BBOX = CFG_BBOX or INDORE_BBOX]). *)
Definition app_default : bbox := mk 75.74 22.58 76.02 22.84.
Definition configured : bbox := mk 75.8895 22.7525 75.9150 22.7700.

Definition try_imports (cfg : option bbox) : bbox :=
  match cfg with Some b => b | None => app_default end.

(** [lat = miny + (cy / 512.0) * (maxy - miny)],
    [lng = minx + (cx / 512.0) * (maxx - minx)], [return lat, lng]. *)
Definition _px_to_ll (INDORE_BBOX : bbox) (cx cy : Q) : Q * Q :=
  let '(mk minx miny maxx maxy) := INDORE_BBOX in
  let lat := miny + (cy / 512) * (maxy - miny) in
  let lng := minx + (cx / 512) * (maxx - minx) in
  (lat, lng).

(** [_cxcy]: centre of a pixel box, with the tile centre as fallback. *)
Definition _cxcy (b : list Q) : Q * Q :=
  match b with
  | x0 :: y0 :: x1 :: y1 :: _ => ((x0 + x1) / 2, (y0 + y1) / 2)
  | _ => (256, 256)
  end.

End Geo.

(* ------------------------------------------------------------------ *)
(** ** Rasters, masks and the libraries the engine calls *)

(** A decoded raster: rows, columns and one row-major pixel list per band. *)
Record image := Image { img_rows : nat; img_cols : nat; img_bands : list (list Z) }.

(** [img.shape] *)
Definition img_shape (img : image) : nat * nat * nat :=
  (img_rows img, img_cols img, length (img_bands img)).

(** [img[:, :, k].astype(np.float32)] *)
Definition band (img : image) (k : nat) : outcome Array.t :=
  match nth_error (img_bands img) k with
  | Some px => Return (Array.mk (img_rows img, img_cols img) (map inject_Z px))
  | None => Raise (Exn IndexError "index is out of bounds for axis 2")
  end.

(** A [uint8] mask. *)
Record mask := Mask { mask_shape : nat * nat; mask_data : list Z }.

(** [cv2.DMatch] *)
Record DMatch := { queryIdx : nat; trainIdx : nat; distance : Q }.

(** What the module takes from base64, OpenCV and scikit-learn.  A call that
    can fail returns an [outcome].  An approximated polygon is a list of
    points, and a point [pt] is itself an array of coordinate rows: OpenCV
    lays [approxPolyDP]'s result out as N x 1 x 2, one row [[x, y]] per
    point. *)
Class Externals := {
  b64decode : string -> outcome (list Z);
  imdecode : list Z -> outcome (option image);
  resize : image -> nat * nat -> outcome image;
  GaussianBlur : image -> outcome image;
  descriptors : Type;
  homography : Type;
  detectAndCompute : image -> outcome (list (Q * Q) * descriptors);
  bf_match : descriptors -> descriptors -> outcome (list DMatch);
  findHomography : list (Q * Q) -> list (Q * Q) -> outcome homography;
  warpPerspective : image -> homography -> nat * (nat * nat * nat) -> outcome image;
  (** An [IsolationForest] with the given contamination, its generator
      started from the given state, fitted on the features; then
      [decision_function] on the same features. *)
  decision_function : Q -> Z -> list (Q * Q) -> outcome (list Q);
  morphologyEx_close : mask -> outcome mask;
  contour : Type;
  findContours : mask -> outcome (list contour);
  contourArea : contour -> Q;
  boundingRect : contour -> Z * Z * Z * Z;
  arcLength : contour -> Q;
  approxPolyDP : contour -> Q -> list (list (Z * Z))
}.


Definition Qlt_b (a b : Q) : bool := negb (Qle_bool b a).

(** [sklearn.utils.check_random_state]: an int seeds a generator of its own;
    [None] stands for numpy's global generator, whose state is part of the
    environment of the call. *)
Definition check_random_state (random_state : option Z) (global_state : Z) : Z :=
  match random_state with
  | Some seed => seed
  | None => global_state
  end.

(** [IsolationForest.predict]: [-1] where the decision function is negative,
    [1] elsewhere. *)
Definition predict (scores : list Q) : list Z :=
  map (fun s => if Qlt_b s 0 then (-1)%Z else 1%Z) scores.

(** [np.rint]: the nearest integer, the even one of two that are equally
    near. *)
Definition rint (q : Q) : Z :=
  let n := Qfloor q in
  match Qcompare (q - inject_Z n) (1 # 2) with
  | Lt => n
  | Gt => (n + 1)%Z
  | Eq => if Z.even n then n else (n + 1)%Z
  end.

(** [round(x, 2)] for a [numpy.float64], the way numpy rounds: the value is
    multiplied by [10 ** 2], passed to [rint] and divided by [10 ** 2]. *)
Definition round2 (q : Q) : Q := inject_Z (rint (q * 100)) / 100.

(* ------------------------------------------------------------------ *)
(** ** tenacity: the retry loop around [decode_image] *)

Module Tenacity.

(** [wait_exponential(multiplier, min, max)]: the wait after attempt
    [attempt_number] is [multiplier * 2 ^ (attempt_number - 1)] clamped to
    [[max(0, min), max]]. *)
Definition wait_exponential (multiplier min_wait max_wait : Z) (attempt_number : nat) : Z :=
  Z.max (Z.max 0 min_wait)
        (Z.min (multiplier * 2 ^ (Z.of_nat attempt_number - 1)) max_wait).

(** [retry_if_exception_type(cls)] *)
Definition retry_if_exception_type (cls : exn_class) (e : exn) : bool :=
  exn_class_eqb (exn_cls e) cls.

(** One run of the decorated function: attempt [attempt_number], with
    [remaining] further attempts allowed by [stop_after_attempt].  The result
    comes with the list of sleeps made, in seconds.  An exception the
    predicate rejects is re-raised at once; when the attempts are used up the
    loop raises [RetryError] ([reraise] is left at its default [False]). *)
Fixpoint attempts {A} (wait : nat -> Z) (retry_if : exn -> bool)
    (f : nat -> outcome A) (remaining attempt_number : nat) : outcome A * list Z :=
  match f attempt_number with
  | Return a => (Return a, [])
  | Raise e =>
      if retry_if e then
        match remaining with
        | O => (Raise (Exn RetryError (exn_msg e)), [])
        | S remaining' =>
            let '(r, sleeps) := attempts wait retry_if f remaining' (S attempt_number) in
            (r, wait attempt_number :: sleeps)
        end
      else (Raise e, [])
  end.

(** [@retry(stop=stop_after_attempt(n), wait=..., retry=...)] *)
Definition retry {A} (stop_after_attempt : nat) (wait : nat -> Z)
    (retry_if : exn -> bool) (f : nat -> outcome A) : outcome A * list Z :=
  attempts wait retry_if f (stop_after_attempt - 1) 1.

(** Number of calls of the decorated function in a run. *)
Definition calls {A} (run : outcome A * list Z) : nat := S (length (snd run)).

End Tenacity.


(* ------------------------------------------------------------------ *)
(** ** cachetools: [TTLCache] *)

Module TTLCache.

Section Cache.

Variable V : Type.

(** An entry: the value kept for the key and the time its link expires. *)
Record link := Link { key : string; value : V; expires : Z }.

(** [links] is the ordered dictionary of the cache, least recently used
    first; [chain] holds the keys in the order of the linked list that
    [expire] walks, the link set longest ago first. *)
Record t := Cache {
  maxsize : nat;
  ttl : Z;
  links : list link;
  chain : list string
}.

Definition live (now : Z) (l : link) : bool := (now <? expires l)%Z.

Definition has_key (k : string) (l : link) : bool := String.eqb (key l) k.

Definition without (k : string) (ls : list link) : list link :=
  filter (fun l => negb (has_key k l)) ls.

(** [k in cache]: the key has a link and the link has not expired.  The
    timer is read once and nothing is changed. *)
Definition contains (now : Z) (c : t) (k : string) : bool :=
  match find (has_key k) (links c) with
  | Some l => live now l
  | None => false
  end.

(** [OrderedDict.move_to_end(k)] *)
Definition move_to_end (k : string) (ls : list link) : list link :=
  match find (has_key k) ls with
  | Some l => without k ls ++ [l]
  | None => ls
  end.

(** [cache[k]]: the link of the key, if there is one, becomes the most
    recently used; then the timer is read, and a key that has expired or is
    missing raises [KeyError]. *)
Definition getitem (now : Z) (c : t) (k : string) : outcome V * t :=
  match find (has_key k) (links c) with
  | Some l =>
      (if live now l then Return (value l) else Raise (Exn KeyError k),
       Cache (maxsize c) (ttl c) (move_to_end k (links c)) (chain c))
  | None => (Raise (Exn KeyError k), c)
  end.

(** [expire(now)] walks the chain from its head and stops at the first link
    that has not expired. *)
Fixpoint expire_chain (now : Z) (ls : list link) (ch : list string) : list string :=
  match ch with
  | [] => []
  | k :: ch' =>
      match find (has_key k) ls with
      | Some l => if live now l then ch else expire_chain now ls ch'
      | None => expire_chain now ls ch'
      end
  end.

Definition keeps (ch : list string) (l : link) : bool :=
  existsb (String.eqb (key l)) ch.

Definition expire (now : Z) (c : t) : t :=
  let ch := expire_chain now (links c) (chain c) in
  Cache (maxsize c) (ttl c) (filter (keeps ch) (links c)) ch.

(** [popitem()] as [__setitem__] calls it, after [expire]: the least
    recently used key goes. *)
Definition popitem (c : t) : t :=
  match links c with
  | [] => c
  | l :: ls =>
      Cache (maxsize c) (ttl c) ls
            (filter (fun k => negb (String.eqb k (key l))) (chain c))
  end.

(** [cache[k] = v] at time [now], every value having size 1 and the cache
    a [maxsize] of 1 or more: expired links go first; for a new key
    the least recently used keys are popped while the cache is full; the
    key becomes the most recently used and its link, expiring at
    [now + ttl], the last of the chain. *)
Definition setitem (now : Z) (c : t) (k : string) (v : V) : t :=
  let c := expire now c in
  let c :=
    if existsb (has_key k) (links c) then c
    else Nat.iter (length (links c) + 1 - maxsize c) popitem c in
  Cache (maxsize c) (ttl c)
        (without k (links c) ++ [Link k v (now + ttl c)%Z])
        (filter (fun k' => negb (String.eqb k' k)) (chain c) ++ [k]).

End Cache.

End TTLCache.

(* ------------------------------------------------------------------ *)
(** ** The detection result *)

(** A vertex of a polygon as line 130 builds it: [[pt[0], pt[3]]]. *)
Definition vertex : Type := (Z * Z) * (Z * Z).

(** The dictionary returned when a change is reported. *)
Record detection := Detection {
  bbox : list Z;
  mask_path : string;
  timestamp : string;
  confidence : Q;
  polygons : list (list vertex);
  ndvi_diff_mean : Q;
  ndbi_diff_mean : Q
}.

(** [{"detected": False}] or [{"detected": True, "bbox": ..., ...}]. *)
Inductive result :=
| NotDetected
| Detected (d : detection).

(** [r["detected"]], [r.get("bbox")], [r.get("confidence")],
    [r.get("polygons", [])]. *)
Definition detected (r : result) : bool :=
  match r with NotDetected => false | Detected _ => true end.

Definition get_bbox (r : result) : option (list Z) :=
  match r with NotDetected => None | Detected d => Some (bbox d) end.

Definition get_confidence (r : result) : option Q :=
  match r with NotDetected => None | Detected d => Some (confidence d) end.

Definition get_polygons (r : result) : list (list vertex) :=
  match r with NotDetected => [] | Detected d => polygons d end.

(* ------------------------------------------------------------------ *)
(** ** The engine *)

(** Process state: the module-level [mask_cache], the number of scorer fits
    so far, the mask files written, and the directories [os.makedirs] has
    been asked for and has left in place. *)
Record state := State {
  mask_cache : TTLCache.t result;
  fit_calls : nat;
  written : list string;
  dirs : list string
}.

(** [mask_cache = TTLCache(maxsize=100, ttl=3600)] at import time. *)
Definition initial_state : state :=
  State (TTLCache.Cache 100 3600 [] []) 0 [] [].

(** What a call reads from its environment: the cache timer at the test of
    line 66, at the read of line 68 and at the store of line 152;
    [datetime.utcnow()] formatted as the timestamp; what
    [os.makedirs(path, exist_ok=True)] does in the file system the call
    finds; the state of numpy's global random generator. *)
Record env := Env {
  clock : Z;
  clock_getitem : Z;
  clock_store : Z;
  utcnow : string;
  makedirs : string -> outcome unit;
  np_random : Z
}.

(** The running bounding box and the polygons of the contour loop. *)
Record boxes := Boxes {
  x_min : Z; y_min : Z; x_max : Z; y_max : Z;
  polys : list (list vertex)
}.

(** [os.path.join(output_dir, name)] on POSIX. *)
Definition path_join (dir name : string) : string :=
  match dir with
  | EmptyString => name
  | _ =>
      if String.eqb (substring (String.length dir - 1) 1 dir) "/"
      then dir ++ name
      else dir ++ "/" ++ name
  end%string.

(** [s.replace(backslash, "/")] *)
Fixpoint replace_backslash (s : string) : string :=
  match s with
  | EmptyString => EmptyString
  | String c s' =>
      String (if Ascii.eqb c (ascii_of_nat 92) then "/"%char else c)
             (replace_backslash s')
  end.

(** Stable sort by [distance]: [sorted(matches, key=lambda x: x.distance)]. *)
Fixpoint insert_by_distance (m : DMatch) (ms : list DMatch) : list DMatch :=
  match ms with
  | [] => [m]
  | m' :: ms' =>
      if Qlt_b (distance m') (distance m)
      then m' :: insert_by_distance m ms'
      else m :: ms
  end.

Definition sorted_by_distance (ms : list DMatch) : list DMatch :=
  fold_right insert_by_distance [] ms.

(** [scores[preds == -1]] *)
Definition select (scores : list Q) (preds : list Z) : list Q :=
  map fst (filter (fun sp => (snd sp =? -1)%Z) (combine scores preds)).

Section Engine.

Context {ext : Externals}.

Local Open Scope outcome_scope.

(** The body of [decode_image]: every exception of the [try] block,
    [DetectionError("Failed to decode image")] included, is caught and
    re-raised as [DetectionError(str(e))]. *)
Definition decode_once (image_b64 : string) : outcome image :=
  match (img_data <- b64decode image_b64 ;; imdecode img_data) with
  | Return (Some img) => Return img
  | Return None => Raise (Exn DetectionError "Failed to decode image")
  | Raise e => Raise (Exn DetectionError (exn_msg e))
  end.

(** [@retry(stop=stop_after_attempt(3),
            wait=wait_exponential(multiplier=1, min=2, max=10),
            retry=retry_if_exception_type(DetectionError))] *)
Definition decode_image_run (image_b64 : string) : outcome image * list Z :=
  Tenacity.retry 3 (Tenacity.wait_exponential 1 2 10)
    (Tenacity.retry_if_exception_type DetectionError)
    (fun _ => decode_once image_b64).

Definition decode_image (image_b64 : string) : outcome image :=
  fst (decode_image_run image_b64).

Definition resize_images (img1 img2 : image) : outcome (image * image) :=
  a <- resize img1 (512, 512)%nat ;;
  b <- resize img2 (512, 512)%nat ;;
  Return (a, b).

(** [align_images]; the last line passes [(img1.shape[1], img1.shape)] as the
    output size. *)
Definition align_images (img1 img2 : image) : outcome image :=
  '(kp1, des1) <- detectAndCompute img1 ;;
  '(kp2, des2) <- detectAndCompute img2 ;;
  matches <- bf_match des1 des2 ;;
  let matches := sorted_by_distance matches in
  if (length matches <? 4)%nat then Return img2
  else
    src_pts <- comprehension (fun m => getitem kp1 (queryIdx m)) (firstn 4 matches) ;;
    dst_pts <- comprehension (fun m => getitem kp2 (trainIdx m)) (firstn 4 matches) ;;
    M <- findHomography src_pts dst_pts ;;
    warpPerspective img2 M (img_cols img1, img_shape img1).

(** Lines 71-78: decode both scenes and resize them. *)
Definition decode_and_resize (old_b64 new_b64 : string) : outcome (image * image) :=
  old_img <- decode_image old_b64 ;;
  new_img <- decode_image new_b64 ;;
  resize_images old_img new_img.

(** What the stages before the scorer hand on. *)
Record deltas := Deltas {
  ndvi_diff : Array.t;
  ndbi_diff : Array.t;
  features : list (Q * Q)
}.

(** Lines 79-99: denoise, extract the bands, compute the indices and their
    differences, stack the two feature columns. *)
Definition index_deltas (old_img new_img : image) : outcome deltas :=
  old_img <- GaussianBlur old_img ;;
  new_img <- GaussianBlur new_img ;;
  nir_old <- band old_img 3 ;;
  red_old <- band old_img 2 ;;
  swir_old <- band old_img 4 ;;
  nir_new <- band new_img 3 ;;
  red_new <- band new_img 2 ;;
  swir_new <- band new_img 4 ;;
  ndvi_old <- compute_ndvi nir_old red_old ;;
  ndvi_new <- compute_ndvi nir_new red_new ;;
  ndbi_old <- compute_ndbi nir_old swir_old ;;
  ndbi_new <- compute_ndbi nir_new swir_new ;;
  ndvi_diff <- Array.sub ndvi_new ndvi_old ;;
  ndbi_diff <- Array.sub ndbi_new ndbi_old ;;
  Return (Deltas ndvi_diff ndbi_diff
            (combine (Array.data ndvi_diff) (Array.data ndbi_diff))).

(** Lines 102-110: fit the scorer with [contamination=0.05] and
    [random_state=42], threshold its predictions into the anomaly mask and
    close the mask. *)
Definition anomaly_mask (e : env) (d : deltas) : outcome (list Q * list Z * mask) :=
  scores <- decision_function 0.05
              (check_random_state (Some 42%Z) (np_random e)) (features d) ;;
  let preds := predict scores in
  let anomaly_mask :=
    Mask (Array.shape (ndvi_diff d))
         (map (fun p => if (p =? -1)%Z then 255%Z else 0%Z) preds) in
  anomaly_mask <- morphologyEx_close anomaly_mask ;;
  Return (scores, preds, anomaly_mask).

(** One turn of the loop of lines 120-130. *)
Definition loop_body (c : contour) (b : boxes) : outcome boxes :=
  if Qlt_b (contourArea c) 50 then Return b
  else
    let '(x, y, w, h) := boundingRect c in
    let x_min := Z.min x (x_min b) in
    let y_min := Z.min y (y_min b) in
    let x_max := Z.max (x + w) (x_max b) in
    let y_max := Z.max (y + h) (y_max b) in
    let approx := approxPolyDP c (0.01 * arcLength c) in
    poly <- comprehension
              (fun pt => p0 <- getitem pt 0 ;; p3 <- getitem pt 3 ;; Return (p0, p3))
              approx ;;
    Return (Boxes x_min y_min x_max y_max (polys b ++ [poly])).

Fixpoint for_contours (cs : list contour) (b : boxes) : outcome boxes :=
  match cs with
  | [] => Return b
  | c :: cs' => b' <- loop_body c b ;; for_contours cs' b'
  end.

Definition degenerate (b : boxes) : bool :=
  (x_max b <=? x_min b)%Z || (y_max b <=? y_min b)%Z.

(** Lines 113-133: [None] stands for the two [return {"detected": False}]. *)
Definition extract_regions (cs : list contour) : outcome (option boxes) :=
  match cs with
  | [] => Return None
  | _ =>
      b <- for_contours cs (Boxes 512 512 0 0 []) ;;
      if degenerate b then Return None else Return (Some b)
  end.

(** Lines 111-133, from the closed mask on. *)
Definition find_regions (anomaly_mask : mask) : outcome (option boxes) :=
  contours <- findContours anomaly_mask ;;
  extract_regions contours.

(** Line 140, then [round(confidence, 2)]. *)
Definition confidence_of (scores : list Q) (preds : list Z) : Q :=
  round2 (if existsb (fun p => (p =? -1)%Z) preds
          then Array.mean (select scores preds)
          else 0).

Definition cache_key (old_b64 new_b64 : string) : string :=
  (substring 0 50 old_b64 ++ "_" ++ substring 0 50 new_b64)%string.

(** Lines 135-151. *)
Definition build_result (e : env) (output_dir : string) (d : deltas)
    (scores : list Q) (preds : list Z) (b : boxes) : detection :=
  let mask_path := path_join output_dir ("mask_" ++ utcnow e ++ ".png")%string in
  Detection [x_min b; y_min b; x_max b; y_max b]
            (replace_backslash mask_path)
            (utcnow e)
            (confidence_of scores preds)
            (polys b)
            (Array.mean (Array.data (ndvi_diff d)))
            (Array.mean (Array.data (ndbi_diff d))).

(** Lines 111-154: from the closed mask to the result.  Nothing is written
    or stored on the two ways out with [{"detected": False}]. *)
Definition report_regions (e : env) (key output_dir : string) (d : deltas)
    (scores : list Q) (preds : list Z) (anomaly_mask : mask) (s : state)
    : outcome result * state :=
  match find_regions anomaly_mask with
  | Raise ex => (Raise ex, s)
  | Return None => (Return NotDetected, s)
  | Return (Some b) =>
      let r := Detected (build_result e output_dir d scores preds b) in
      (Return r,
       State (TTLCache.setitem (clock_store e) (mask_cache s) key r)
             (fit_calls s)
             (written s ++ [path_join output_dir
                              ("mask_" ++ utcnow e ++ ".png")%string])
             (dirs s))
  end.

(** Lines 79-154, from the aligned pair on.  [if old_img is None or new_img
    is None] of line 73 never fires: [decode_image] returns a raster or
    raises. *)
Definition after_alignment (e : env) (key output_dir : string)
    (old_img new_img : image) (s : state) : outcome result * state :=
  match index_deltas old_img new_img with
  | Raise ex => (Raise ex, s)
  | Return d =>
      let s := State (mask_cache s) (S (fit_calls s)) (written s) (dirs s) in
      match anomaly_mask e d with
      | Raise ex => (Raise ex, s)
      | Return (scores, preds, m) =>
          report_regions e key output_dir d scores preds m s
      end
  end.

(** The pipeline on a cache miss, from [os.makedirs] of line 70 on. *)
Definition compute (e : env) (key output_dir old_b64 new_b64 : string)
    (s : state) : outcome result * state :=
  match makedirs e output_dir with
  | Raise ex => (Raise ex, s)
  | Return _ =>
      let s := State (mask_cache s) (fit_calls s) (written s)
                     (dirs s ++ [output_dir]) in
      match ('(old_img, new_img) <- decode_and_resize old_b64 new_b64 ;;
             new_img <- align_images old_img new_img ;;
             Return (old_img, new_img)) with
      | Raise ex => (Raise ex, s)
      | Return (old_img, new_img) =>
          after_alignment e key output_dir old_img new_img s
      end
  end.

(** The body of the coroutine [detect_illegal_construction]. *)
Definition detect_illegal_construction (e : env)
    (old_b64 new_b64 output_dir : string) (s : state) : outcome result * state :=
  let cache_key := cache_key old_b64 new_b64 in
  if TTLCache.contains (clock e) (mask_cache s) cache_key then
    let '(o, c) := TTLCache.getitem (clock_getitem e) (mask_cache s) cache_key in
    (o, State c (fit_calls s) (written s) (dirs s))
  else compute e cache_key output_dir old_b64 new_b64 s.

(** A Python value in a slot of the list [batch_detect] returns. *)
Inductive pyobj :=
| Dict (r : result)
| ExceptionObj (e : exn)
| CoroutineObj (body : env -> state -> outcome result * state).

(** A unit of work the event loop runs: it may change the process state. *)
Definition task : Type := state -> outcome pyobj * state.

(** Calling an [async def] function builds its coroutine object and runs
    nothing of the body. *)
Definition call_async (body : env -> state -> outcome result * state) : task :=
  fun s => (Return (CoroutineObj body), s).

(** [asyncio.to_thread(f, *args)]: the call [f( *args)] made in a worker
    thread; the task's value is the value of the call. *)
Definition to_thread (call : task) : task := call.

(** [await asyncio.gather( *tasks, return_exceptions=True)]: the results in
    the order of the tasks, an exception taking the slot of the task that
    raised it.  The tasks are run one after the other; worker threads may
    interleave differently, which is the same for tasks that leave the state
    alone. *)
Fixpoint gather_return_exceptions (tasks : list task) (s : state)
    : list pyobj * state :=
  match tasks with
  | [] => ([], s)
  | t :: ts =>
      let '(o, s1) := t s in
      let '(vs, s2) := gather_return_exceptions ts s1 in
      (match o with Return v => v | Raise ex => ExceptionObj ex end :: vs, s2)
  end.

Definition batch_detect (old_b64s new_b64s : list string) (output_dir : string)
    (s : state) : list pyobj * state :=
  let tasks :=
    map (fun '(old, new) =>
           to_thread (call_async
             (fun e => detect_illegal_construction e old new output_dir)))
        (combine old_b64s new_b64s) in
  gather_return_exceptions tasks s.

(** [await v] *)
Definition await (v : pyobj) (e : env) (s : state) : outcome result * state :=
  match v with
  | CoroutineObj body => body e s
  | Dict r => (Raise (Exn LibraryError "object dict can't be used in 'await' expression"), s)
  | ExceptionObj _ => (Raise (Exn LibraryError "object can't be used in 'await' expression"), s)
  end.

End Engine.

(** The states the process can be in: [mask_cache] starts empty and only
    [detect_illegal_construction] writes to it. *)
Inductive reachable {ext : Externals} : state -> Prop :=
| reachable_initial : reachable initial_state
| reachable_call s e old_b64 new_b64 output_dir :
    reachable s ->
    reachable (snd (detect_illegal_construction e old_b64 new_b64 output_dir s)).


(* ------------------------------------------------------------------ *)
(** ** Predicates used to state the properties *)

(** The part of a run other calls can tell apart: what was reported, without
    the timestamp and the path of the mask file. *)
Definition report (o : outcome result) :
    outcome (bool * option (list Z) * list (list vertex) * option Q) :=
  match o with
  | Return r => Return (detected r, get_bbox r, get_polygons r, get_confidence r)
  | Raise ex => Raise ex
  end.

(** Every pixel of every band is non-negative, as in an unsigned raster. *)
Definition nonneg_pixels (img : image) : Prop :=
  Forall (Forall (fun p => (0 <= p)%Z)) (img_bands img).

(** The contour passes the area filter of line 121. *)
Definition survives {ext : Externals} (c : contour) : bool :=
  negb (Qlt_b (contourArea c) 50).

(** Lines 121-127 without the polygon: the running box after one more
    contour. *)
Definition widen {ext : Externals} (b : boxes) (c : contour) : boxes :=
  if survives c then
    let '(x, y, w, h) := boundingRect c in
    Boxes (Z.min x (x_min b)) (Z.min y (y_min b))
          (Z.max (x + w) (x_max b)) (Z.max (y + h) (y_max b)) (polys b)
  else b.

(** The box lines 118-127 accumulate over the contours. *)
Definition hull {ext : Externals} (cs : list contour) : boxes :=
  fold_left widen cs (Boxes 512 512 0 0 []).

(** The sides of a bounding rectangle [(x, y, w, h)]. *)
Definition rect_left (r : Z * Z * Z * Z) : Z := let '(x, _, _, _) := r in x.
Definition rect_top (r : Z * Z * Z * Z) : Z := let '(_, y, _, _) := r in y.
Definition rect_right (r : Z * Z * Z * Z) : Z := let '(x, _, w, _) := r in (x + w)%Z.
Definition rect_bottom (r : Z * Z * Z * Z) : Z := let '(_, y, _, h) := r in (y + h)%Z.

(** A bounding rectangle [(x, y, w, h)] as OpenCV computes it for a contour
    found in a mask of [rows] x [cols] pixels: at least one pixel wide and
    high, and inside the mask. *)
Definition rect_in_mask (shape : nat * nat) (r : Z * Z * Z * Z) : Prop :=
  let '(x, y, w, h) := r in
  (0 <= x /\ 0 <= y /\ 0 < w /\ 0 < h /\
   x + w <= Z.of_nat (snd shape) /\ y + h <= Z.of_nat (fst shape))%Z.

(** The polygon of a contour as OpenCV lays it out: at least one point, one
    coordinate row per point (N x 1 x 2). *)
Definition opencv_layout {ext : Externals} (c : contour) : Prop :=
  approxPolyDP c (0.01 * arcLength c) <> [] /\
  Forall (fun pt => length pt = 1%nat) (approxPolyDP c (0.01 * arcLength c)).

(** The result was built by lines 142-151 in a run of the pipeline that got
    as far as that. *)
Inductive computed {ext : Externals} : result -> Prop :=
| computed_by e dir old_b64 new_b64 old_img new_img0 new_img d scores preds m b :
    decode_and_resize old_b64 new_b64 = Return (old_img, new_img0) ->
    align_images old_img new_img0 = Return new_img ->
    index_deltas old_img new_img = Return d ->
    anomaly_mask e d = Return (scores, preds, m) ->
    find_regions m = Return (Some b) ->
    computed (Detected (build_result e dir d scores preds b)).

(** What OpenCV does with the channels of a raster: [imdecode] yields one,
    three or four of them, never more; [resize], [GaussianBlur] and
    [warpPerspective] return as many as they are given. *)
Record opencv_channels {ext : Externals} : Prop := {
  imdecode_channels : forall bytes img,
    imdecode bytes = Return (Some img) -> (length (img_bands img) <= 4)%nat;
  resize_channels : forall img size img',
    resize img size = Return img' ->
    length (img_bands img') = length (img_bands img);
  GaussianBlur_channels : forall img img',
    GaussianBlur img = Return img' ->
    length (img_bands img') = length (img_bands img);
  warpPerspective_channels : forall img M size img',
    warpPerspective img M size = Return img' ->
    length (img_bands img') = length (img_bands img)
}.

(** What OpenCV does with the size of a raster or mask: [resize] returns
    the [(width, height)] asked for, [GaussianBlur] and the closing keep the
    size, and a contour found in a mask has its bounding rectangle inside
    the mask. *)
Record opencv_shapes {ext : Externals} : Prop := {
  resize_shape : forall img w h img',
    resize img (w, h) = Return img' -> img_rows img' = h /\ img_cols img' = w;
  GaussianBlur_shape : forall img img',
    GaussianBlur img = Return img' ->
    img_rows img' = img_rows img /\ img_cols img' = img_cols img;
  morphologyEx_shape : forall m m',
    morphologyEx_close m = Return m' -> mask_shape m' = mask_shape m;
  contours_in_mask : forall m cs,
    findContours m = Return cs ->
    Forall (fun c => rect_in_mask (mask_shape m) (boundingRect c)) cs
}.

(* ------------------------------------------------------------------ *)
(** ** A miniature instance of the libraries

    A small codec and a table of contours stand in for OpenCV, so that the
    theorems below have concrete inputs; the instance keeps to what the real
    calls do with channels, sizes and polygon layout. *)

Module Miniature.

Record outline := Outline {
  area : Q;
  rect : Z * Z * Z * Z;
  perimeter : Q;
  approx : list (list (Z * Z))
}.

(** One row of four pixels in three channels, as a colour image decodes,
    and in four, as one with an alpha channel does. *)
Definition rgb : image := Image 1 4 (repeat [0; 0; 0; 0]%Z 3).
Definition rgba : image := Image 1 4 (repeat [0; 0; 0; 0]%Z 4).

(** Rasters of five bands, built in memory: no payload decodes to them. *)
Definition blank : image := Image 1 4 (repeat [0; 0; 0; 0]%Z 5).

(** [blank] with the first [k] pixels turned from vegetation to built-up:
    red 3000, near-infrared 1000, short-wave infrared 5000. *)
Definition changed (k : nat) : image :=
  let px v := (repeat v k ++ repeat 0%Z (4 - k))%list in
  Image 1 4 [px 0%Z; px 0%Z; px 3000%Z; px 1000%Z; px 5000%Z].

Definition codes (s : string) : list Z :=
  map (fun c => Z.of_nat (nat_of_ascii c)) (list_ascii_of_string s).

(** ["R..."] decodes to [rgb] and ["A..."] to [rgba]; a payload starting
    with ["!"] is not base64; anything else is not an image. *)
Definition decode_bytes (bytes : list Z) : option image :=
  match bytes with
  | 82%Z :: _ => Some rgb
  | 65%Z :: _ => Some rgba
  | _ => None
  end.

(** Nearest-neighbour resampling to [h] rows of [w] pixels. *)
Definition resample (img : image) (w h : nat) : image :=
  Image h w
    (map (fun px =>
            map (fun i =>
                   nth ((i / w * img_rows img / h) * img_cols img
                        + (i mod w) * img_cols img / w) px 0%Z)
                (seq 0 (h * w)))
         (img_bands img)).

(** A component below the area threshold. *)
Definition speck : outline :=
  Outline 12 (5, 5, 4, 4)%Z 16 [[(5, 5)]; [(9, 5)]; [(9, 9)]; [(5, 9)]]%Z.

(** Another one, elsewhere. *)
Definition fleck : outline :=
  Outline 30 (300, 40, 6, 5)%Z 22 [[(300, 40)]; [(306, 40)]; [(306, 45)]; [(300, 45)]]%Z.

(** A 20 x 20 block. *)
Definition block : outline :=
  Outline 400 (100, 120, 20, 20)%Z 80
    [[(100, 120)]; [(120, 120)]; [(120, 140)]; [(100, 140)]]%Z.

(** A 60 x 30 block. *)
Definition slab : outline :=
  Outline 1800 (200, 300, 60, 30)%Z 180
    [[(200, 300)]; [(260, 300)]; [(260, 330)]; [(200, 330)]]%Z.

Definition fits (shape : nat * nat) (o : outline) : bool :=
  let '(x, y, w, h) := rect o in
  ((0 <=? x) && (0 <=? y) && (x + w <=? Z.of_nat (snd shape))
   && (y + h <=? Z.of_nat (fst shape)))%Z.

(** ORB takes rasters of one, three or four channels. *)
Definition orb_accepts (img : image) : bool :=
  match length (img_bands img) with
  | 1%nat | 3%nat | 4%nat => true
  | _ => false
  end.

Definition externals : Externals := {|
  b64decode s :=
    match codes s with
    | 33%Z :: _ => Raise (Exn LibraryError "Incorrect padding")
    | bytes => Return bytes
    end;
  imdecode bytes := Return (decode_bytes bytes);
  resize img size := Return (resample img (fst size) (snd size));
  GaussianBlur img := Return img;
  descriptors := unit;
  homography := unit;
  detectAndCompute img :=
    if orb_accepts img then Return ([], tt)
    else Raise (Exn LibraryError "(-215:Assertion failed) scn == 1 || scn == 3 || scn == 4 in function 'cvtColor'");
  bf_match _ _ := Return [];
  findHomography _ _ := Return tt;
  warpPerspective _ _ _ := Raise (Exn LibraryError "Can't parse 'dsize'");
  decision_function _ _ feats :=
    Return (map (fun f => if Qeq_bool (fst f) 0 && Qeq_bool (snd f) 0
                          then 1 # 10 else - (1 # 5)) feats);
  morphologyEx_close m := Return m;
  contour := outline;
  findContours m :=
    Return (filter (fits (mask_shape m))
              (match count_occ Z.eq_dec (mask_data m) 255%Z with
               | 0%nat => []
               | 1%nat => [speck]
               | 2%nat => [speck; fleck]
               | 3%nat => [speck; block]
               | _ => [block; fleck; slab]
               end));
  contourArea := area;
  boundingRect := rect;
  arcLength := perimeter;
  approxPolyDP c _ := approx c
|}.

Definition detect := detect_illegal_construction (ext := externals).

(** [os.makedirs(path, exist_ok=True)] in a directory where everything may
    be created; the empty path names no directory. *)
Definition posix_makedirs (path : string) : outcome unit :=
  match path with
  | EmptyString => Raise (Exn OSError "[Errno 2] No such file or directory: ''")
  | _ => Return tt
  end.

Definition at_time (t : Z) : env := Env t t t "20240101_000000" posix_makedirs 0.

End Miniature.

(* ------------------------------------------------------------------ *)
(** ** Helpers of [app.py] and the scheduler *)

Module App.

(** What one [s.bind(("0.0.0.0", port))] does: it binds, raises [OSError],
    or raises something else, which [_pick_free_port] does not catch.  Every
    port is tried at most once, so the outcome is a function of the port. *)
Inductive bind_outcome :=
| Bound
| AddressInUse
| BindFails (ex : exn).

Inductive pick_outcome :=
| Picked (port : Z)
| NoFreePort            (* RuntimeError("No free port found in range") *)
| PickFails (ex : exn).

(** The [for _ in range(max_tries)] loop. *)
Fixpoint pick_from (bind : Z -> bind_outcome) (tries : nat) (port : Z) : pick_outcome :=
  match tries with
  | O => NoFreePort
  | S tries' =>
      match bind port with
      | Bound => Picked port
      | AddressInUse => pick_from bind tries' (port + 1)
      | BindFails ex => PickFails ex
      end
  end.

(** [_pick_free_port(start, max_tries)]; [PORT] is the integer value of the
    environment variable, when set. *)
Definition _pick_free_port (bind : Z -> bind_outcome) (PORT : option Z)
    (start : Z) (max_tries : nat) : pick_outcome :=
  let port := match PORT with Some p => p | None => start end in
  pick_from bind max_tries port.

(** A document of [mem["detections"]]: the keys [status] and [id], which
    [_persist] writes, and the rest of the dictionary. *)
Record doc (P : Type) := Doc {
  payload : P;
  status : option string;
  id : option string
}.

(** [str(n)] for a non-negative int. *)
Definition str (n : nat) : string := NilEmpty.string_of_uint (Nat.to_uint n).

(** Dictionaries are shared objects: [heap] gives the content of the
    dictionary at an address, and [mem["detections"]] is a list of
    addresses. *)
Record memory (P : Type) := Memory {
  heap : nat -> doc P;
  detections : list nat
}.

(** [d[key] = value] for the dictionary at address [a]. *)
Definition update {P} (h : nat -> doc P) (a : nat) (d : doc P) : nat -> doc P :=
  fun a' => if (a' =? a)%nat then d else h a'.

(** [_persist(doc)] without a database ([coll] is [None]) and without
    socket, [doc] being the dictionary at address [a]:
    [doc["status"] = "pending"; mem["detections"].insert(0, doc);
     doc["id"] = str(len(mem["detections"]))]. *)
Definition _persist {P} (a : nat) (m : memory P) : memory P :=
  let h := heap m in
  let h := update h a (Doc (payload (h a)) (Some "pending"%string) (id (h a))) in
  let detections := a :: detections m in
  let h := update h a (Doc (payload (h a)) (status (h a))
                           (Some (str (length detections)))) in
  Memory h detections.

(** The documents of [mem["detections"]] as a reader of the list finds
    them. *)
Definition listed {P} (m : memory P) : list (doc P) :=
  map (heap m) (detections m).

Definition has_status {P} (s : string) (d : doc P) : bool :=
  match status d with
  | Some s' => String.eqb s' s
  | None => false
  end.

(** [api_dashboard_stats] without a database:
    (total_detections, pending_alerts, resolved_cases). *)
Definition api_dashboard_stats {P} (detections : list (doc P)) : nat * nat * nat :=
  (length detections,
   length (filter (has_status "pending") detections),
   length (filter (has_status "resolved") detections)).

(** The rank, counted from the oldest entry, of the newest entry of the
    list that holds the address. *)
Fixpoint newest_rank (a : nat) (detections : list nat) : nat :=
  match detections with
  | [] => 0
  | a' :: rest =>
      if (a' =? a)%nat then length detections else newest_rank a rest
  end.

(** The memory after the dictionaries at the given addresses have been
    persisted one after the other, starting from the empty list. *)
Definition persist_all {P} (h : nat -> doc P) (docs : list nat) : memory P :=
  fold_left (fun m a => _persist a m) docs (Memory h []).

(** A document of [mem["images"]]: its [tag], if it has one, and the rest of
    the dictionary. *)
Record image_doc (P : Type) := ImageDoc { tag : option string; rest : P }.

(** [it.get("tag") == tag] *)
Definition tagged {P} (t : string) (it : image_doc P) : bool :=
  match tag it with
  | Some t' => String.eqb t' t
  | None => false
  end.

(** [_latest_image(tag)] without a database: the first match in
    [reversed(mem["images"])]. *)
Definition _latest_image {P} (t : string) (images : list (image_doc P))
    : option (image_doc P) :=
  find (tagged t) (rev images).

(** A JSON value as the leaderboard sees it: [None], a string, or anything
    else, of which only the truth value matters. *)
Inductive pyvalue :=
| PyNone
| PyStr (s : string)
| PyOther (truth : bool).

Definition truthy (v : pyvalue) : bool :=
  match v with
  | PyNone => false
  | PyStr s => negb (String.eqb s "")
  | PyOther b => b
  end.

(** The two fields of a grievance the leaderboard reads, as [g.get] returns
    them, and an item of the leaderboard. *)
Record grievance := Grievance { g_email : pyvalue; g_name : pyvalue }.

Record entry := Entry { e_name : pyvalue; e_email : string; e_count : nat }.

Record response := Response {
  status_code : nat;
  ok : bool;
  items : list entry;
  error : option string
}.

Section Leaderboard.

(** [str.lower] *)
Variable lower : string -> string.

(** [(g.get("email") or "anon").lower()]; a value that is true and not a
    string has no [lower]. *)
Definition key_of (g : grievance) : outcome string :=
  match (if truthy (g_email g) then g_email g else PyStr "anon") with
  | PyStr s => Return (lower s)
  | _ => Raise (Exn LibraryError "object has no attribute 'lower'")
  end.

Definition has_email (k : string) (it : entry) : bool := String.eqb (e_email it) k.

(** [if key not in items: items[key] = {...}] then
    [items[key]["count"] += 1]; [items] is kept in insertion order. *)
Definition count_up (key : string) (name : pyvalue) (items : list entry) : list entry :=
  if existsb (has_email key) items
  then map (fun it => if has_email key it
                      then Entry (e_name it) (e_email it) (S (e_count it))
                      else it) items
  else items ++ [Entry name key 1].

Fixpoint tally (data : list grievance) (items : list entry) : outcome (list entry) :=
  match data with
  | [] => Return items
  | g :: data' =>
      match key_of g with
      | Raise ex => Raise ex
      | Return key =>
          let name := if truthy (g_name g) then g_name g else PyStr key in
          tally data' (count_up key name items)
      end
  end.

(** [sorted(..., key=lambda x: x["count"], reverse=True)]: by falling count,
    entries of equal count in their first order. *)
Fixpoint insert_by_count (x : entry) (xs : list entry) : list entry :=
  match xs with
  | [] => [x]
  | y :: ys =>
      if (e_count x <? e_count y)%nat
      then y :: insert_by_count x ys
      else x :: xs
  end.

Definition sorted_by_count (xs : list entry) : list entry :=
  fold_right insert_by_count [] xs.

(** [api_grievance_leaderboard] on the grievances kept in memory. *)
Definition api_grievance_leaderboard (data : list grievance) : response :=
  match tally data [] with
  | Return items => Response 200 true (firstn 10 (sorted_by_count items)) None
  | Raise ex => Response 500 false [] (Some (exn_msg ex))
  end.

(** The grievance counts for the key. *)
Definition counts_for (k : string) (g : grievance) : bool :=
  match key_of g with
  | Return k' => String.eqb k' k
  | Raise _ => false
  end.

Definition times (k : string) (data : list grievance) : nat :=
  length (filter (counts_for k) data).

(** Order of the leaderboard: the count does not rise. *)
Definition falling (a b : entry) : Prop := (e_count b <= e_count a)%nat.

(** What the dictionary [items] records about the grievances processed: one
    entry per key, holding the number of grievances of the key. *)
Definition tallied (processed : list grievance) (items : list entry) : Prop :=
  NoDup (map e_email items) /\
  (forall it, In it items ->
     e_count it = times (e_email it) processed /\ (1 <= e_count it)%nat) /\
  (forall g k, In g processed -> key_of g = Return k ->
     exists it, In it items /\ e_email it = k).

End Leaderboard.

End App.

Module Scheduler.

Section AutoFetch.

(** Whether the call of [manual_fetch], and then of [send_email], returns in
    the attempt made when the counter [attempts] has the given value; a call
    that does not return raises, and [except Exception] catches it. *)
Variable manual_fetch : nat -> bool.
Variable send_email : nat -> bool.

Definition max_attempts : nat := 3.

(** The loop [while attempts < max_attempts], with [todo] turns left before
    its condition fails.  The result comes with the number of calls of
    [manual_fetch]; [None] stands for leaving the loop by its condition. *)
Fixpoint attempt_loop (todo attempts : nat) : option bool * nat :=
  match todo with
  | O => (None, attempts)
  | S todo' =>
      if manual_fetch attempts && send_email attempts
      then (Some true, S attempts)
      else
        let attempts := S attempts in
        if (max_attempts <=? attempts)%nat
        then (Some false, attempts)
        else attempt_loop todo' attempts
  end.

Definition auto_fetch_images : option bool * nat :=
  attempt_loop max_attempts 0.

End AutoFetch.

End Scheduler.

(* ================================================================== *)
(** * Properties *)

(* ------------------------------------------------------------------ *)
(** ** Arrays and the pure stages *)

Lemma shape_eqb_refl s : Array.shape_eqb s s = true.
Proof. unfold Array.shape_eqb. now rewrite !Nat.eqb_refl. Qed.

Lemma zip_with_nth f : forall xs ys i x y,
  nth_error xs i = Some x -> nth_error ys i = Some y ->
  nth_error (Array.zip_with f xs ys) i = Some (f x y).
Proof.
  induction xs as [|x0 xs IH]; intros ys i x y Hx Hy.
  - destruct i; discriminate.
  - destruct ys as [|y0 ys]; [destruct i; discriminate|].
    destruct i as [|i]; simpl in *.
    + now inversion Hx; inversion Hy.
    + now apply IH.
Qed.

Lemma map_nth_some (g : Q -> Q) : forall xs i x,
  nth_error xs i = Some x -> nth_error (map g xs) i = Some (g x).
Proof. intros xs i x H. now rewrite nth_error_map, H. Qed.

Section SameShape.

Variables a b : Array.t.
Hypothesis same_shape : Array.shape a = Array.shape b.

Lemma binop_same_shape f :
  Array.binop f a b =
  Return (Array.mk (Array.shape a) (Array.zip_with f (Array.data a) (Array.data b))).
Proof.
  unfold Array.binop. now rewrite <- same_shape, shape_eqb_refl.
Qed.

End SameShape.

(** C5. On equal-shaped bands both indices are computed without error, keep
    the shape, and hold at every pixel the quotient of the specification:
    (NIR - RED) / (NIR + RED + eps) for the vegetation index and
    (SWIR' - NIR') / (SWIR' + NIR' + eps) with SWIR' = SWIR / 10000 and
    NIR' = NIR / 10000 for the built-up index, eps = 1e-6. *)
Theorem spectral_indices_pixelwise (nir red swir : Array.t)
    (Hred : Array.shape nir = Array.shape red)
    (Hswir : Array.shape nir = Array.shape swir) :
  (exists v, compute_ndvi nir red = Return v /\
     Array.shape v = Array.shape nir /\
     forall i n r,
       nth_error (Array.data nir) i = Some n ->
       nth_error (Array.data red) i = Some r ->
       nth_error (Array.data v) i = Some ((n - r) / (n + r + (1 # 1000000)))) /\
  (exists u, compute_ndbi nir swir = Return u /\
     Array.shape u = Array.shape nir /\
     forall i n s,
       nth_error (Array.data nir) i = Some n ->
       nth_error (Array.data swir) i = Some s ->
       nth_error (Array.data u) i =
         Some ((s / 10000 - n / 10000) / (s / 10000 + n / 10000 + (1 # 1000000)))).
Proof.
  split.
  - unfold compute_ndvi, Array.sub, Array.add, Array.div.
    rewrite !(binop_same_shape _ _ Hred); simpl.
    rewrite binop_same_shape by reflexivity.
    eexists; split; [reflexivity|]; split; [reflexivity|].
    intros i n r Hn Hr; simpl.
    apply zip_with_nth.
    + now apply zip_with_nth.
    + apply (map_nth_some (fun x => x + eps)).
      now apply zip_with_nth.
  - unfold compute_ndbi, Array.sub, Array.add, Array.div.
    assert (Hs : Array.shape (Array.scalar Qdiv swir 10000) =
                 Array.shape (Array.scalar Qdiv nir 10000))
      by (simpl; congruence).
    rewrite !(binop_same_shape _ _ Hs); simpl.
    rewrite binop_same_shape by reflexivity.
    eexists; split; [reflexivity|]; split; [now simpl|].
    intros i n s Hn Hsw; simpl.
    pose proof (map_nth_some (fun x => x / 10000) _ _ Hn) as Hn'.
    pose proof (map_nth_some (fun x => x / 10000) _ _ Hsw) as Hs'.
    apply zip_with_nth.
    + now apply zip_with_nth.
    + apply (map_nth_some (fun x => x + eps)).
      now apply zip_with_nth.
Qed.

Lemma spectral_indices_pixelwise_witness :
  let nir := Array.mk (1, 2)%nat [3000; 0] in
  let red := Array.mk (1, 2)%nat [1000; 0] in
  let swir := Array.mk (1, 2)%nat [5000; 0] in
  (exists v, compute_ndvi nir red = Return v /\
     nth_error (Array.data v) 0 = Some ((3000 - 1000) / (3000 + 1000 + (1 # 1000000)))) /\
  (exists u, compute_ndbi nir swir = Return u /\
     nth_error (Array.data u) 0 =
       Some ((5000 / 10000 - 3000 / 10000) / (5000 / 10000 + 3000 / 10000 + (1 # 1000000)))).
Proof.
  intros nir red swir.
  destruct (@spectral_indices_pixelwise nir red swir eq_refl eq_refl)
    as [[v [Hv [_ Hpix]]] [u [Hu [_ Hpix']]]].
  split.
  - exists v. split; [exact Hv|]. now apply Hpix.
  - exists u. split; [exact Hu|]. now apply Hpix'.
Defined.

(** C8. For a tile of 512 x 512 pixels and the configured bounding box
    (minLon, minLat, maxLon, maxLat), [_px_to_ll cx cy] is the pair
    (lat, lon) with lat = minLat + (cy / H) * (maxLat - minLat) and
    lon = minLon + (cx / W) * (maxLon - minLon), W = H = 512. *)
Theorem px_to_ll_linear (INDORE_BBOX : Geo.bbox) (cx cy : Q) :
  let minLon := Geo.minx INDORE_BBOX in
  let minLat := Geo.miny INDORE_BBOX in
  let maxLon := Geo.maxx INDORE_BBOX in
  let maxLat := Geo.maxy INDORE_BBOX in
  let W := 512 in
  let H := 512 in
  Geo._px_to_ll INDORE_BBOX cx cy =
    (minLat + (cy / H) * (maxLat - minLat),
     minLon + (cx / W) * (maxLon - minLon)).
Proof.
  destruct INDORE_BBOX as [x0 y0 x1 y1]; simpl.
  unfold Geo._px_to_ll. reflexivity.
Qed.

(** The corners of the tile go to the corners of the box. *)
Lemma px_to_ll_corners (b : Geo.bbox) :
  let '(lat0, lng0) := Geo._px_to_ll b 0 0 in
  let '(lat1, lng1) := Geo._px_to_ll b 512 512 in
  lat0 == Geo.miny b /\ lng0 == Geo.minx b /\
  lat1 == Geo.maxy b /\ lng1 == Geo.maxx b.
Proof.
  destruct b as [x0 y0 x1 y1]; simpl.
  repeat split; field.
Qed.

(* ------------------------------------------------------------------ *)
(** ** The decoder and its retry policy *)

Lemma wait_exponential_bounds (k : nat) :
  (2 <= Tenacity.wait_exponential 1 2 10 k <= 10)%Z.
Proof. unfold Tenacity.wait_exponential. lia. Qed.

Section RetryLoop.

Variable A : Type.
Variable wait : nat -> Z.
Variable retry_if : exn -> bool.
Variable f : nat -> outcome A.

(** The loop sleeps at most once per attempt it has left, and only for
    durations the wait policy gives. *)
Lemma attempts_sleeps (P : Z -> Prop) (HP : forall k, P (wait k)) :
  forall remaining n,
    (length (snd (Tenacity.attempts wait retry_if f remaining n)) <= remaining)%nat /\
    Forall P (snd (Tenacity.attempts wait retry_if f remaining n)).
Proof.
  induction remaining as [|r IH]; intros n; simpl.
  - destruct (f n) as [a|e]; simpl; [auto|].
    destruct (retry_if e); simpl; auto.
  - destruct (f n) as [a|e]; simpl; [split; [lia|constructor]|].
    destruct (retry_if e); simpl; [|split; [lia|constructor]].
    specialize (IH (S n)).
    destruct (Tenacity.attempts wait retry_if f r (S n)) as [o sl]; simpl in *.
    destruct IH as [Hlen Hall]. split; [lia|now constructor].
Qed.

(** A deterministic body that fails with a retried exception fails on every
    attempt: the loop uses all its attempts and raises [RetryError]. *)
Lemma attempts_constant_failure (e : exn) (Hf : forall n, f n = Raise e)
    (Hretry : retry_if e = true) :
  forall remaining n,
    Tenacity.attempts wait retry_if f remaining n =
      (Raise (Exn RetryError (exn_msg e)), map wait (seq n remaining)).
Proof.
  induction remaining as [|r IH]; intros n; simpl; rewrite Hf, Hretry.
  - reflexivity.
  - now rewrite IH.
Qed.

End RetryLoop.

Section Decoder.

Context {ext : Externals}.

Lemma decode_once_raises (image_b64 : string) (e : exn) :
  decode_once image_b64 = Raise e -> exn_cls e = DetectionError.
Proof.
  unfold decode_once.
  destruct (obind _ _) as [[img|]|e']; intros H; inversion H; reflexivity.
Qed.

(** C3, as the code has it.  The decoder returns the raster the codec
    produced, with no check of its size or band count, after a single
    attempt; every failure of the body, whatever its cause, is a
    [DetectionError] and is retried: three attempts in all, a first sleep of
    2 s and a second one between 2 s and 10 s, then [RetryError].  For any
    body the policy makes at most three attempts and sleeps between 2 s and
    10 s each time. *)
Theorem decode_image_retry_policy (image_b64 : string) :
  (forall bytes img,
     b64decode image_b64 = Return bytes -> imdecode bytes = Return (Some img) ->
     decode_image_run image_b64 = (Return img, [])) /\
  (forall e,
     decode_once image_b64 = Raise e ->
     exn_cls e = DetectionError /\
     fst (decode_image_run image_b64) = Raise (Exn RetryError (exn_msg e)) /\
     Tenacity.calls (decode_image_run image_b64) = 3%nat /\
     exists w, snd (decode_image_run image_b64) = [2; w]%Z /\ (2 <= w <= 10)%Z) /\
  (forall (A : Type) (body : nat -> outcome A),
     let run := Tenacity.retry 3 (Tenacity.wait_exponential 1 2 10)
                  (Tenacity.retry_if_exception_type DetectionError) body in
     (Tenacity.calls run <= 3)%nat /\
     Forall (fun w => (2 <= w <= 10)%Z) (snd run)).
Proof.
  split; [|split].
  - intros bytes img Hb Hi.
    unfold decode_image_run, Tenacity.retry; simpl.
    unfold decode_once; rewrite Hb; simpl; now rewrite Hi.
  - intros e He.
    pose proof (decode_once_raises _ He) as Hcls.
    assert (Hrun : decode_image_run image_b64 =
                   (Raise (Exn RetryError (exn_msg e)),
                    map (Tenacity.wait_exponential 1 2 10) (seq 1 2))).
    { unfold decode_image_run, Tenacity.retry.
      apply attempts_constant_failure; auto.
      unfold Tenacity.retry_if_exception_type. now rewrite Hcls. }
    rewrite Hrun. repeat split; auto.
    eexists. split; [reflexivity|]. apply wait_exponential_bounds.
  - intros A body run. split.
    + unfold run, Tenacity.calls, Tenacity.retry; simpl Nat.sub.
      apply le_n_S.
      now apply (attempts_sleeps _ _ body (fun _ => True)).
    + unfold run, Tenacity.retry.
      now apply (attempts_sleeps _ _ body _ wait_exponential_bounds).
Qed.

End Decoder.

Lemma decode_image_retry_policy_witness :
  decode_image_run (ext := Miniature.externals) "R" = (Return Miniature.rgb, []) /\
  fst (decode_image_run (ext := Miniature.externals) "x") =
    Raise (Exn RetryError "Failed to decode image") /\
  Tenacity.calls (decode_image_run (ext := Miniature.externals) "x") = 3%nat.
Proof.
  destruct (decode_image_retry_policy (ext := Miniature.externals) "R") as [Hok _].
  destruct (decode_image_retry_policy (ext := Miniature.externals) "x") as [_ [Hfail _]].
  destruct (Hfail (Exn DetectionError "Failed to decode image") eq_refl)
    as [_ [Hraise [Hcalls _]]].
  split; [|split].
  - now apply (Hok (Miniature.codes "R")).
  - exact Hraise.
  - exact Hcalls.
Defined.

(** C3 as stated fails twice over in the miniature codec.  The payload ["R"]
    decodes to a raster of three bands, and the decoder returns it: neither a
    raster of five bands or more nor a failure.  The payload ["x"] is not an
    image at all, a fault no retry can cure, yet the body is run three times
    with two sleeps before the call fails, and it fails with [RetryError],
    not with the decoder's own error class. *)
Lemma decode_image_unvalidated_and_always_retried :
  (decode_image (ext := Miniature.externals) "R" = Return Miniature.rgb /\
   length (img_bands Miniature.rgb) = 3%nat) /\
  (imdecode (Externals := Miniature.externals) (Miniature.codes "x") = Return None /\
   Tenacity.calls (decode_image_run (ext := Miniature.externals) "x") = 3%nat /\
   length (snd (decode_image_run (ext := Miniature.externals) "x")) = 2%nat /\
   exists msg, decode_image (ext := Miniature.externals) "x" = Raise (Exn RetryError msg)).
Proof.
  repeat split. now exists "Failed to decode image"%string.
Qed.

(* ------------------------------------------------------------------ *)
(** ** The TTL cache *)

Lemma skipn_tl (A : Type) : forall n (xs : list A),
  skipn (S n) xs = tl (skipn n xs).
Proof.
  induction n as [|n IH]; intros [|x xs]; try reflexivity.
  change (skipn (S (S n)) (x :: xs)) with (skipn (S n) xs).
  change (skipn (S n) (x :: xs)) with (skipn n xs).
  apply IH.
Qed.

Lemma filter_drops_one (A : Type) (p : A -> bool) : forall l,
  existsb p l = true ->
  (length (filter (fun x => negb (p x)) l) < length l)%nat.
Proof.
  induction l as [|x l IH]; simpl; [discriminate|].
  destruct (p x) eqn:Hp; simpl; intros H.
  - pose proof (filter_length_le (fun x => negb (p x)) l). lia.
  - specialize (IH H). lia.
Qed.

Lemma map_filter_nodup (A B : Type) (f : A -> B) (p : A -> bool) : forall l,
  NoDup (map f l) -> NoDup (map f (filter p l)).
Proof.
  induction l as [|x l IH]; simpl; intros H; [constructor|].
  inversion H as [|? ? Hnotin Hnd]; subst.
  destruct (p x); simpl; [|now apply IH].
  constructor; [|now apply IH].
  intros Hin. apply Hnotin.
  apply in_map_iff in Hin as [y [Hy Hin]]. apply filter_In in Hin as [Hin _].
  apply in_map_iff. now exists y.
Qed.

Lemma map_skipn_nodup (A B : Type) (f : A -> B) : forall n l,
  NoDup (map f l) -> NoDup (map f (skipn n l)).
Proof.
  induction n as [|n IH]; intros [|x l] H; simpl; auto.
  inversion H; subst. now apply IH.
Qed.

Lemma snoc_nodup (A : Type) (x : A) : forall l,
  NoDup l -> ~ In x l -> NoDup (l ++ [x]).
Proof.
  induction l as [|y l IH]; simpl; intros Hnd Hx.
  - constructor; [intros []|constructor].
  - inversion Hnd as [|? ? Hy Hl]; subst. constructor.
    + intros Hin. apply in_app_or in Hin as [Hin|[Heq|[]]]; [now apply Hy|].
      subst. apply Hx. now left.
    + apply IH; [exact Hl|]. intros Hin. apply Hx. now right.
Qed.

Section CacheLemmas.

Variable V : Type.
Implicit Types (c : TTLCache.t V) (k : string) (v : V) (l : TTLCache.link V).

Lemma contains_empty now c k :
  TTLCache.links c = [] -> TTLCache.contains now c k = false.
Proof. unfold TTLCache.contains. now intros ->. Qed.

Lemma without_key k : forall (ls : list (TTLCache.link V)),
  ~ In k (map (@TTLCache.key V) (TTLCache.without k ls)).
Proof.
  intros ls Hin. apply in_map_iff in Hin as [l [Hk Hin]].
  apply filter_In in Hin as [_ Hno]. unfold TTLCache.has_key in Hno.
  rewrite Hk, String.eqb_refl in Hno. discriminate.
Qed.

(** Moving a key to the end keeps the entries, one per key. *)
Lemma move_to_end_links k (ls : list (TTLCache.link V)) :
  (forall l, In l (TTLCache.move_to_end k ls) -> In l ls) /\
  (length (TTLCache.move_to_end k ls) <= length ls)%nat /\
  (NoDup (map (@TTLCache.key V) ls) ->
   NoDup (map (@TTLCache.key V) (TTLCache.move_to_end k ls))).
Proof.
  unfold TTLCache.move_to_end.
  destruct (find (TTLCache.has_key k) ls) as [l0|] eqn:Hf; [|now repeat split].
  apply find_some in Hf as [Hin Hk].
  split; [|split].
  - intros l Hl. apply in_app_or in Hl as [Hl|[<-|[]]]; [|exact Hin].
    now apply filter_In in Hl as [Hl _].
  - rewrite length_app; simpl.
    assert (Hex : existsb (TTLCache.has_key k) ls = true)
      by (apply existsb_exists; now exists l0).
    pose proof (filter_drops_one _ _ Hex). unfold TTLCache.without. lia.
  - intros Hnd. rewrite map_app; simpl. apply snoc_nodup.
    + now apply map_filter_nodup.
    + unfold TTLCache.has_key in Hk. apply String.eqb_eq in Hk. rewrite Hk.
      apply without_key.
Qed.

Lemma getitem_cache now c k :
  let c' := snd (TTLCache.getitem now c k) in
  TTLCache.maxsize c' = TTLCache.maxsize c /\
  TTLCache.ttl c' = TTLCache.ttl c /\
  (forall l, In l (TTLCache.links c') -> In l (TTLCache.links c)) /\
  (length (TTLCache.links c') <= length (TTLCache.links c))%nat /\
  (NoDup (map (@TTLCache.key V) (TTLCache.links c)) ->
   NoDup (map (@TTLCache.key V) (TTLCache.links c'))).
Proof.
  unfold TTLCache.getitem.
  destruct (find _ _) as [l0|]; simpl; [|now repeat split].
  destruct (move_to_end_links k (TTLCache.links c)) as [H1 [H2 H3]].
  now repeat split.
Qed.

Lemma getitem_value now c k v :
  fst (TTLCache.getitem now c k) = Return v ->
  exists l, In l (TTLCache.links c) /\ TTLCache.value l = v.
Proof.
  unfold TTLCache.getitem.
  destruct (find _ _) as [l0|] eqn:Hf; simpl; [|discriminate].
  destruct (TTLCache.live now l0); [|discriminate].
  intros [= <-]. apply find_some in Hf. exists l0. tauto.
Qed.

Lemma pops_links : forall n c,
  TTLCache.links (Nat.iter n (@TTLCache.popitem V) c) = skipn n (TTLCache.links c) /\
  TTLCache.maxsize (Nat.iter n (@TTLCache.popitem V) c) = TTLCache.maxsize c /\
  TTLCache.ttl (Nat.iter n (@TTLCache.popitem V) c) = TTLCache.ttl c.
Proof.
  induction n as [|n IH]; intros c; [now repeat split|].
  destruct (IH c) as [Hl [Hm Ht]].
  change (Nat.iter (S n) (@TTLCache.popitem V) c)
    with (TTLCache.popitem (Nat.iter n (@TTLCache.popitem V) c)).
  set (c' := Nat.iter n (@TTLCache.popitem V) c) in *.
  rewrite skipn_tl, <- Hl, <- Hm, <- Ht.
  unfold TTLCache.popitem.
  destruct (TTLCache.links c') eqn:E; simpl; [rewrite E|]; now repeat split.
Qed.

(** What [cache[k] = v] leaves: entries that were there, none of them for
    the key, and the new entry last. *)
Lemma setitem_links now c k v :
  TTLCache.maxsize (TTLCache.setitem now c k v) = TTLCache.maxsize c /\
  TTLCache.ttl (TTLCache.setitem now c k v) = TTLCache.ttl c /\
  exists older,
    TTLCache.links (TTLCache.setitem now c k v) =
      older ++ [TTLCache.Link k v (now + TTLCache.ttl c)%Z] /\
    (forall l, In l older -> In l (TTLCache.links c)) /\
    ~ In k (map (@TTLCache.key V) older) /\
    (NoDup (map (@TTLCache.key V) (TTLCache.links c)) ->
     NoDup (map (@TTLCache.key V) older)) /\
    ((1 <= TTLCache.maxsize c)%nat ->
     (length (TTLCache.links c) <= TTLCache.maxsize c)%nat ->
     (length older < TTLCache.maxsize c)%nat).
Proof.
  unfold TTLCache.setitem.
  set (c1 := TTLCache.expire now c).
  assert (H1 : TTLCache.maxsize c1 = TTLCache.maxsize c /\
               TTLCache.ttl c1 = TTLCache.ttl c /\
               TTLCache.links c1 =
                 filter (TTLCache.keeps
                           (TTLCache.expire_chain now (TTLCache.links c)
                              (TTLCache.chain c)))
                        (TTLCache.links c)) by now repeat split.
  destruct H1 as [Hm1 [Ht1 Hl1]].
  set (n := (length (TTLCache.links c1) + 1 - TTLCache.maxsize c1)%nat).
  destruct (pops_links n c1) as [Hl2 [Hm2 Ht2]].
  assert (Hlen1 : (length (TTLCache.links c1) <= length (TTLCache.links c))%nat)
    by (rewrite Hl1; apply filter_length_le).
  destruct (existsb (TTLCache.has_key k) (TTLCache.links c1)) eqn:Hex.
  - cbn [TTLCache.maxsize TTLCache.ttl TTLCache.links].
    split; [exact Hm1|]. split; [exact Ht1|].
    exists (TTLCache.without k (TTLCache.links c1)). rewrite Ht1.
    split; [reflexivity|]. split; [|split; [|split]].
    + intros l Hl. apply filter_In in Hl as [Hl _].
      rewrite Hl1 in Hl. now apply filter_In in Hl as [Hl _].
    + apply without_key.
    + intros Hnd. apply map_filter_nodup. rewrite Hl1. now apply map_filter_nodup.
    + intros _ Hle. pose proof (filter_drops_one _ _ Hex).
      unfold TTLCache.without. lia.
  - cbn [TTLCache.maxsize TTLCache.ttl TTLCache.links].
    rewrite Hm2, Ht2, Hl2.
    split; [exact Hm1|]. split; [exact Ht1|].
    exists (TTLCache.without k (skipn n (TTLCache.links c1))). rewrite Ht1.
    split; [reflexivity|].
    assert (Hsub : forall l, In l (skipn n (TTLCache.links c1)) ->
                             In l (TTLCache.links c1)).
    { intros l Hl. rewrite <- (firstn_skipn n (TTLCache.links c1)).
      apply in_or_app. now right. }
    split; [|split; [|split]].
    + intros l Hl. apply filter_In in Hl as [Hl _]. apply Hsub in Hl.
      rewrite Hl1 in Hl. now apply filter_In in Hl as [Hl _].
    + apply without_key.
    + intros Hnd. apply map_filter_nodup, map_skipn_nodup.
      rewrite Hl1. now apply map_filter_nodup.
    + intros Hmax Hle.
      pose proof (filter_length_le (fun l => negb (TTLCache.has_key k l))
                    (skipn n (TTLCache.links c1))) as Hf.
      unfold TTLCache.without. rewrite length_skipn in Hf. subst n.
      rewrite Hm1 in Hf |- *. lia.
Qed.

End CacheLemmas.

(* ------------------------------------------------------------------ *)
(** ** The contour loop *)

Lemma Qlt_b_true (a b : Q) : Qlt_b a b = true <-> a < b.
Proof.
  unfold Qlt_b. rewrite negb_true_iff. split; intros H.
  - apply Qnot_le_lt. intros Hle. apply Qle_bool_iff in Hle. congruence.
  - destruct (Qle_bool b a) eqn:Hb; [|reflexivity].
    apply Qle_bool_iff in Hb. exfalso. now apply (Qlt_not_le a b).
Qed.

Section ContourLoop.

Context {ext : Externals}.

Lemma survives_false c : survives c = false <-> contourArea c < 50.
Proof.
  unfold survives. rewrite negb_false_iff. apply Qlt_b_true.
Qed.

Lemma for_contours_all_small (cs : list contour) (b : boxes) :
  Forall (fun c => contourArea c < 50) cs -> for_contours cs b = Return b.
Proof.
  induction 1 as [|c cs Hc _ IH]; simpl; [reflexivity|].
  unfold loop_body. apply Qlt_b_true in Hc. now rewrite Hc.
Qed.

(** A turn of the loop that does not raise leaves the box [widen] gives;
    it adds one polygon when the contour passes the filter. *)
Lemma loop_body_widen c b b1 :
  loop_body c b = Return b1 ->
  x_min b1 = x_min (widen b c) /\ y_min b1 = y_min (widen b c) /\
  x_max b1 = x_max (widen b c) /\ y_max b1 = y_max (widen b c) /\
  length (polys b1) = (length (polys b) + if survives c then 1 else 0)%nat.
Proof.
  unfold loop_body, widen, survives.
  destruct (Qlt_b (contourArea c) 50); simpl.
  - intros [= <-]. repeat split; lia.
  - destruct (boundingRect c) as [[[x y] w] h].
    destruct (comprehension _ _) as [poly|ex]; simpl; [|discriminate].
    intros [= <-]; simpl. rewrite length_app; simpl. repeat split; lia.
Qed.

(** The box [widen] gives depends on the corners of the running box
    alone. *)
Lemma widen_corners c b b' :
  x_min b = x_min b' -> y_min b = y_min b' ->
  x_max b = x_max b' -> y_max b = y_max b' ->
  x_min (widen b c) = x_min (widen b' c) /\ y_min (widen b c) = y_min (widen b' c) /\
  x_max (widen b c) = x_max (widen b' c) /\ y_max (widen b c) = y_max (widen b' c).
Proof.
  intros H1 H2 H3 H4. unfold widen.
  destruct (survives c); [|tauto].
  destruct (boundingRect c) as [[[x y] w] h]; simpl. repeat split; congruence.
Qed.

Lemma fold_widen_corners : forall cs b b',
  x_min b = x_min b' -> y_min b = y_min b' ->
  x_max b = x_max b' -> y_max b = y_max b' ->
  x_min (fold_left widen cs b) = x_min (fold_left widen cs b') /\
  y_min (fold_left widen cs b) = y_min (fold_left widen cs b') /\
  x_max (fold_left widen cs b) = x_max (fold_left widen cs b') /\
  y_max (fold_left widen cs b) = y_max (fold_left widen cs b').
Proof.
  induction cs as [|c cs IH]; simpl; intros b b' H1 H2 H3 H4; [tauto|].
  destruct (widen_corners c _ _ H1 H2 H3 H4) as [K1 [K2 [K3 K4]]].
  now apply IH.
Qed.

(** When the loop comes to its end, the box is the one [widen] accumulates
    and there is one polygon per contour that passed the filter. *)
Lemma for_contours_widen : forall cs b0 b,
  for_contours cs b0 = Return b ->
  x_min b = x_min (fold_left widen cs b0) /\
  y_min b = y_min (fold_left widen cs b0) /\
  x_max b = x_max (fold_left widen cs b0) /\
  y_max b = y_max (fold_left widen cs b0) /\
  length (polys b) = (length (polys b0) + length (filter survives cs))%nat.
Proof.
  induction cs as [|c cs IH]; simpl; intros b0 b H.
  - inversion H; subst. repeat split; lia.
  - destruct (loop_body c b0) as [b1|ex] eqn:Hbody; simpl in H; [|discriminate].
    destruct (IH _ _ H) as [K1 [K2 [K3 [K4 K5]]]].
    destruct (loop_body_widen _ _ Hbody) as [L1 [L2 [L3 [L4 L5]]]].
    destruct (fold_widen_corners cs _ _ L1 L2 L3 L4) as [M1 [M2 [M3 M4]]].
    repeat split; try congruence.
    rewrite K5, L5. destruct (survives c); simpl; lia.
Qed.

(** The accumulated box grows from the box it starts with and encloses the
    bounding rectangle of every contour that passed the filter. *)
Lemma fold_widen_encloses : forall cs b0,
  (x_min (fold_left widen cs b0) <= x_min b0 /\
   y_min (fold_left widen cs b0) <= y_min b0 /\
   x_max b0 <= x_max (fold_left widen cs b0) /\
   y_max b0 <= y_max (fold_left widen cs b0))%Z /\
  (forall c, In c cs -> survives c = true ->
     (x_min (fold_left widen cs b0) <= rect_left (boundingRect c) /\
      y_min (fold_left widen cs b0) <= rect_top (boundingRect c) /\
      rect_right (boundingRect c) <= x_max (fold_left widen cs b0) /\
      rect_bottom (boundingRect c) <= y_max (fold_left widen cs b0))%Z).
Proof.
  induction cs as [|c cs IH]; simpl; intros b0.
  - split; [lia|]. intros c [].
  - destruct (IH (widen b0 c)) as [Hmono Henc].
    assert (Hstep : (x_min (widen b0 c) <= x_min b0 /\ y_min (widen b0 c) <= y_min b0 /\
                     x_max b0 <= x_max (widen b0 c) /\ y_max b0 <= y_max (widen b0 c))%Z /\
                    (survives c = true ->
                     (x_min (widen b0 c) <= rect_left (boundingRect c) /\
                      y_min (widen b0 c) <= rect_top (boundingRect c) /\
                      rect_right (boundingRect c) <= x_max (widen b0 c) /\
                      rect_bottom (boundingRect c) <= y_max (widen b0 c))%Z)).
    { unfold widen. destruct (survives c); [|split; [lia|discriminate]].
      destruct (boundingRect c) as [[[x y] w] h]; simpl. split; [lia|]. intros _. lia. }
    destruct Hstep as [Hs1 Hs2]. split; [lia|].
    intros c' [<-|Hin] Hc'; [specialize (Hs2 Hc'); lia|now apply Henc].
Qed.

(** The accumulated box stays between bounds that hold the box it starts
    with and every rectangle that is taken in. *)
Lemma fold_widen_within (lo hi : Z) : forall cs b0,
  (lo <= x_min b0 /\ lo <= y_min b0 /\ x_max b0 <= hi /\ y_max b0 <= hi)%Z ->
  (forall c, In c cs -> survives c = true ->
     (lo <= rect_left (boundingRect c) /\ lo <= rect_top (boundingRect c) /\
      rect_right (boundingRect c) <= hi /\ rect_bottom (boundingRect c) <= hi)%Z) ->
  (lo <= x_min (fold_left widen cs b0) /\ lo <= y_min (fold_left widen cs b0) /\
   x_max (fold_left widen cs b0) <= hi /\ y_max (fold_left widen cs b0) <= hi)%Z.
Proof.
  induction cs as [|c cs IH]; simpl; intros b0 Hb Hcs; [exact Hb|].
  apply IH; [|intros c' Hin; apply Hcs; now right].
  unfold widen. destruct (survives c) eqn:Hs; [|exact Hb].
  specialize (Hcs c (or_introl eq_refl) Hs).
  destruct (boundingRect c) as [[[x y] w] h]; simpl in *. lia.
Qed.

(** Without a contour that passes the filter the box stays as it starts. *)
Lemma fold_widen_none : forall cs b0,
  Forall (fun c => survives c = false) cs -> fold_left widen cs b0 = b0.
Proof.
  induction cs as [|c cs IH]; simpl; intros b0 H; [reflexivity|].
  inversion H as [|? ? Hc Hcs]; subst. unfold widen at 2. rewrite Hc. now apply IH.
Qed.

Lemma extract_regions_loop cs b :
  extract_regions cs = Return (Some b) ->
  for_contours cs (Boxes 512 512 0 0 []) = Return b /\ degenerate b = false.
Proof.
  unfold extract_regions. destruct cs as [|c cs]; [discriminate|].
  destruct (for_contours _ _) as [b1|ex]; simpl; [|discriminate].
  destruct (degenerate b1) eqn:Hd; [discriminate|]. now intros [= <-].
Qed.

(** With the polygon of a surviving contour laid out as OpenCV does, one
    coordinate row per point, the loop body raises: line 130 reads [pt[3]]. *)
Lemma loop_body_raises_on_opencv_layout c b :
  Qlt_b (contourArea c) 50 = false ->
  approxPolyDP c (0.01 * arcLength c) <> [] ->
  Forall (fun pt => length pt = 1%nat) (approxPolyDP c (0.01 * arcLength c)) ->
  loop_body c b = Raise (Exn IndexError "index out of bounds").
Proof.
  intros Harea Hne Hrows. unfold loop_body. rewrite Harea.
  destruct (boundingRect c) as [[[x y] w] h].
  destruct (approxPolyDP c _) as [|pt pts]; [congruence|].
  inversion Hrows as [|? ? Hpt _]; subst.
  destruct pt as [|p0 [|p1 pt]]; try discriminate. reflexivity.
Qed.

(** On OpenCV's layout the loop can only skip contours: it ends with the box
    it started from, or raises. *)
Lemma for_contours_opencv_layout : forall cs b b',
  Forall opencv_layout cs -> for_contours cs b = Return b' ->
  b' = b /\ Forall (fun c => survives c = false) cs.
Proof.
  induction cs as [|c cs IH]; simpl; intros b b' Hl H.
  - inversion H. now split.
  - inversion Hl as [|? ? [Hne Hrows] Hl']; subst.
    destruct (Qlt_b (contourArea c) 50) eqn:Harea.
    + unfold loop_body in H. rewrite Harea in H; simpl in H.
      destruct (IH _ _ Hl' H) as [-> Hall]. split; [reflexivity|].
      constructor; [|exact Hall]. unfold survives. now rewrite Harea.
    + rewrite (loop_body_raises_on_opencv_layout c b Harea Hne Hrows) in H.
      discriminate.
Qed.

Lemma extract_regions_opencv_layout cs b :
  Forall opencv_layout cs -> extract_regions cs <> Return (Some b).
Proof.
  intros Hl. unfold extract_regions. destruct cs as [|c cs]; [discriminate|].
  destruct (for_contours _ _) as [b1|ex] eqn:Hloop; simpl; [|discriminate].
  apply for_contours_opencv_layout in Hloop as [-> _]; [|exact Hl].
  simpl. discriminate.
Qed.

End ContourLoop.

(* ------------------------------------------------------------------ *)
(** ** One call of the engine *)

Section EngineLemmas.

Context {ext : Externals}.

(** The scorer is started from the seed 42 whatever the environment, and
    the predictions are the thresholded scores. *)
Lemma anomaly_mask_scores e d scores preds m :
  anomaly_mask e d = Return (scores, preds, m) ->
  decision_function 0.05 42 (features d) = Return scores /\
  preds = predict scores /\
  morphologyEx_close
    (Mask (Array.shape (ndvi_diff d))
          (map (fun p => if (p =? -1)%Z then 255%Z else 0%Z) (predict scores))) =
    Return m.
Proof.
  unfold anomaly_mask, check_random_state.
  destruct (decision_function _ _ _) as [ss|ex]; simpl; [|discriminate].
  destruct (morphologyEx_close _) as [m'|ex] eqn:Hm; simpl; [|discriminate].
  intros [= <- <- <-]. now repeat split.
Qed.

Lemma detect_miss e old_b64 new_b64 dir s :
  TTLCache.contains (clock e) (mask_cache s) (cache_key old_b64 new_b64) = false ->
  detect_illegal_construction e old_b64 new_b64 dir s =
    compute e (cache_key old_b64 new_b64) dir old_b64 new_b64 s.
Proof. unfold detect_illegal_construction. now intros ->. Qed.

(** The ways a run from the closed mask can end: nothing reported and the
    state untouched, or a region reported, its mask written and the result
    stored under the key. *)
Lemma report_regions_cases e key dir d scores preds m s :
  let run := report_regions e key dir d scores preds m s in
  (snd run = s /\ forall r, fst run = Return r -> r = NotDetected) \/
  (exists b,
     find_regions m = Return (Some b) /\
     fst run = Return (Detected (build_result e dir d scores preds b)) /\
     snd run =
       State (TTLCache.setitem (clock_store e) (mask_cache s) key
                (Detected (build_result e dir d scores preds b)))
             (fit_calls s)
             (written s ++ [path_join dir ("mask_" ++ utcnow e ++ ".png")%string])
             (dirs s)).
Proof.
  unfold report_regions.
  destruct (find_regions m) as [[b|]|ex]; simpl.
  - right. now exists b.
  - left. split; [reflexivity|]. now intros r [= <-].
  - left. split; [reflexivity|]. discriminate.
Qed.

Lemma after_alignment_cases e key dir old_img new_img s :
  let run := after_alignment e key dir old_img new_img s in
  (mask_cache (snd run) = mask_cache s /\ written (snd run) = written s /\
   dirs (snd run) = dirs s /\
   forall r, fst run = Return r ->
     r = NotDetected /\ fit_calls (snd run) = S (fit_calls s)) \/
  (exists d scores preds m b,
     index_deltas old_img new_img = Return d /\
     anomaly_mask e d = Return (scores, preds, m) /\
     find_regions m = Return (Some b) /\
     fst run = Return (Detected (build_result e dir d scores preds b)) /\
     mask_cache (snd run) =
       TTLCache.setitem (clock_store e) (mask_cache s) key
         (Detected (build_result e dir d scores preds b)) /\
     fit_calls (snd run) = S (fit_calls s) /\
     written (snd run) =
       written s ++ [path_join dir ("mask_" ++ utcnow e ++ ".png")%string] /\
     dirs (snd run) = dirs s).
Proof.
  unfold after_alignment.
  destruct (index_deltas old_img new_img) as [d|ex]; simpl.
  2: { left. repeat split; auto; discriminate. }
  destruct (anomaly_mask e d) as [[[scores preds] m]|ex] eqn:Hm; simpl.
  2: { left. repeat split; auto; discriminate. }
  set (s1 := State (mask_cache s) (S (fit_calls s)) (written s) (dirs s)).
  destruct (report_regions_cases e key dir d scores preds m s1)
    as [[Hs Hr]|[b [Hreg [Hres Hs]]]].
  - left. rewrite Hs. simpl. repeat split; auto.
  - right. exists d, scores, preds, m, b. rewrite Hs. now repeat split.
Qed.

(** The ways a run of the pipeline can end. *)
Lemma compute_cases e key dir old_b64 new_b64 s :
  let run := compute e key dir old_b64 new_b64 s in
  (mask_cache (snd run) = mask_cache s /\ written (snd run) = written s /\
   forall r, fst run = Return r ->
     r = NotDetected /\ fit_calls (snd run) = S (fit_calls s)) \/
  (exists r,
     computed r /\ fst run = Return r /\
     mask_cache (snd run) = TTLCache.setitem (clock_store e) (mask_cache s) key r /\
     fit_calls (snd run) = S (fit_calls s)).
Proof.
  unfold compute.
  destruct (makedirs e dir) as [u|ex]; simpl.
  2: { left. repeat split; auto; discriminate. }
  destruct (decode_and_resize old_b64 new_b64) as [[o n0]|ex] eqn:Hdec; simpl.
  2: { left. repeat split; auto; discriminate. }
  destruct (align_images o n0) as [n|ex] eqn:Hal; simpl.
  2: { left. repeat split; auto; discriminate. }
  set (s1 := State (mask_cache s) (fit_calls s) (written s) (dirs s ++ [dir])).
  destruct (after_alignment_cases e key dir o n s1)
    as [[Hc [Hw [_ Hr]]]|[d [scores [preds [m [b [Hd [Hm [Hreg [Hres [Hc [Hf _]]]]]]]]]]]].
  - left. rewrite Hc, Hw. split; [reflexivity|]. split; [reflexivity|].
    intros r Hret. exact (Hr r Hret).
  - right. eexists. split; [|split; [exact Hres|split; [exact Hc|exact Hf]]].
    now apply (computed_by e dir old_b64 new_b64 Hdec Hal Hd Hm Hreg).
Qed.

(** Every entry of the cache of a reachable state was built by line 142. *)
Lemma reachable_cache s :
  reachable s ->
  Forall (fun l => computed (TTLCache.value l)) (TTLCache.links (mask_cache s)).
Proof.
  induction 1 as [|s e old_b64 new_b64 dir _ IH]; [constructor|].
  unfold detect_illegal_construction.
  destruct (TTLCache.contains _ _ _).
  - destruct (TTLCache.getitem _ _ _) as [o c] eqn:Hg; simpl.
    pose proof (getitem_cache (clock_getitem e) (mask_cache s)
                  (cache_key old_b64 new_b64)) as H.
    rewrite Hg in H; simpl in H. destruct H as [_ [_ [Hsub _]]].
    apply Forall_forall. intros l Hl. rewrite Forall_forall in IH. auto.
  - destruct (compute_cases e (cache_key old_b64 new_b64) dir old_b64 new_b64 s)
      as [[Hc _]|[r [Hr [_ [Hc _]]]]]; rewrite Hc; [exact IH|].
    destruct (setitem_links (clock_store e) (mask_cache s)
                (cache_key old_b64 new_b64) r) as [_ [_ [older [Hl [Hsub _]]]]].
    rewrite Hl. apply Forall_app. split.
    + apply Forall_forall. intros l Hin. rewrite Forall_forall in IH. auto.
    + now repeat constructor.
Qed.

(** A result a call returns is [{"detected": False}] or was built by
    line 142, in this call or in the one that stored it. *)
Lemma detect_returns s e old_b64 new_b64 dir r :
  reachable s ->
  fst (detect_illegal_construction e old_b64 new_b64 dir s) = Return r ->
  r = NotDetected \/ computed r.
Proof.
  intros Hs. unfold detect_illegal_construction.
  destruct (TTLCache.contains _ _ _).
  - destruct (TTLCache.getitem _ _ _) as [o c] eqn:Hg; simpl. intros ->.
    right.
    assert (Hv : fst (TTLCache.getitem (clock_getitem e) (mask_cache s)
                        (cache_key old_b64 new_b64)) = Return r)
      by now rewrite Hg.
    apply getitem_value in Hv as [l [Hin <-]].
    pose proof (reachable_cache Hs) as Hall.
    rewrite Forall_forall in Hall. now apply Hall.
  - destruct (compute_cases e (cache_key old_b64 new_b64) dir old_b64 new_b64 s)
      as [[_ [_ Hnd]]|[r' [Hr' [Hres _]]]]; intros Hret.
    + left. now apply Hnd.
    + right. congruence.
Qed.

(** On OpenCV's polygon layout no run gets as far as line 142. *)
Lemma layout_never_computed
    (layout : forall m cs, findContours m = Return cs -> Forall opencv_layout cs)
    r :
  computed r -> False.
Proof.
  intros [e dir o n oi ni0 ni d scores preds m b _ _ _ _ Hreg].
  unfold find_regions in Hreg.
  destruct (findContours m) as [cs|ex] eqn:Hcs; simpl in Hreg; [|discriminate].
  exact (extract_regions_opencv_layout (layout _ _ Hcs) Hreg).
Qed.

(** So the cache stays empty, and every call is a miss. *)
Lemma layout_empty_cache
    (layout : forall m cs, findContours m = Return cs -> Forall opencv_layout cs)
    s :
  reachable s -> TTLCache.links (mask_cache s) = [].
Proof.
  intros Hs. pose proof (reachable_cache Hs) as Hall.
  destruct (TTLCache.links (mask_cache s)) as [|l ls]; [reflexivity|].
  inversion Hall as [|? ? Hl _]; subst.
  destruct (layout_never_computed layout Hl).
Qed.

End EngineLemmas.

(* ------------------------------------------------------------------ *)
(** ** No region to report *)

Section NoRegion.

Context {ext : Externals}.

(** A box that ends degenerate has taken in no contour, bounding rectangles
    being at least one pixel wide and high. *)
Lemma degenerate_hull_no_survivor cs :
  Forall (fun c => let '(_, _, w, h) := boundingRect c in (0 < w /\ 0 < h)%Z) cs ->
  (x_min (hull cs) >= x_max (hull cs) \/ y_min (hull cs) >= y_max (hull cs))%Z ->
  Forall (fun c => contourArea c < 50) cs.
Proof.
  intros Hpos Hdeg. apply Forall_forall. intros c Hin.
  destruct (survives c) eqn:Hs; [exfalso|now apply survives_false].
  destruct (fold_widen_encloses cs (Boxes 512 512 0 0 [])) as [_ Henc].
  specialize (Henc c Hin Hs). fold (hull cs) in Henc.
  rewrite Forall_forall in Hpos. specialize (Hpos c Hin).
  destruct (boundingRect c) as [[[x y] w] h]; simpl in *. lia.
Qed.

Lemma extract_regions_all_small cs :
  Forall (fun c => contourArea c < 50) cs -> extract_regions cs = Return None.
Proof.
  intros Hsmall. unfold extract_regions.
  rewrite for_contours_all_small by assumption. now destruct cs.
Qed.

(** C2. For every anomaly mask whose contours are all below 50 px^2, and
    for every mask whose accumulated box is degenerate on either axis, the
    part of the call that follows the closing of the mask (lines 111-154)
    returns [{"detected": False}] normally: no region, no polygon, nothing
    stored and no file written.  Seen from the aligned pair (lines 79-154)
    the scorer has been fitted once and nothing else has changed. *)
Theorem no_surviving_region_not_detected e key dir d scores preds m cs s :
  findContours m = Return cs ->
  (Forall (fun c => contourArea c < 50) cs \/
   (Forall (fun c => let '(_, _, w, h) := boundingRect c in (0 < w /\ 0 < h)%Z) cs /\
    (x_min (hull cs) >= x_max (hull cs) \/ y_min (hull cs) >= y_max (hull cs))%Z)) ->
  (report_regions e key dir d scores preds m s = (Return NotDetected, s) /\
   detected NotDetected = false /\
   get_polygons NotDetected = [] /\ get_bbox NotDetected = None) /\
  (forall old_img new_img,
     index_deltas old_img new_img = Return d ->
     anomaly_mask e d = Return (scores, preds, m) ->
     after_alignment e key dir old_img new_img s =
       (Return NotDetected,
        State (mask_cache s) (S (fit_calls s)) (written s) (dirs s))).
Proof.
  intros Hcs Hcond.
  assert (Hsmall : Forall (fun c => contourArea c < 50) cs).
  { destruct Hcond as [H|[Hpos Hdeg]]; [exact H|].
    now apply degenerate_hull_no_survivor. }
  assert (Hreg : find_regions m = Return None).
  { unfold find_regions. rewrite Hcs; simpl. now apply extract_regions_all_small. }
  assert (Hrep : forall s0,
             report_regions e key dir d scores preds m s0 = (Return NotDetected, s0)).
  { intros s0. unfold report_regions. now rewrite Hreg. }
  split; [now repeat split|].
  intros old_img new_img Hd Hm. unfold after_alignment. rewrite Hd, Hm. apply Hrep.
Qed.

End NoRegion.

Lemma no_surviving_region_not_detected_witness :
  let m := Mask (512, 512)%nat (255 :: 255 :: repeat 0 (512 * 512 - 2))%Z in
  let d := Deltas (Array.mk (512, 512)%nat []) (Array.mk (512, 512)%nat []) [] in
  findContours (Externals := Miniature.externals) m =
    Return [Miniature.speck; Miniature.fleck] /\
  report_regions (ext := Miniature.externals) (Miniature.at_time 0) "k"
    "static/masks" d [] [] m initial_state = (Return NotDetected, initial_state).
Proof.
  intros m d.
  assert (Hcs : findContours (Externals := Miniature.externals) m =
                Return [Miniature.speck; Miniature.fleck])
    by (vm_compute; reflexivity).
  split; [exact Hcs|].
  refine (proj1 (proj1 (@no_surviving_region_not_detected Miniature.externals
            (Miniature.at_time 0) "k" "static/masks" d [] [] m
            [Miniature.speck; Miniature.fleck] initial_state Hcs _))).
  left. repeat constructor.
Defined.

(* ------------------------------------------------------------------ *)
(** ** Shapes through the pipeline *)

Lemma shape_eqb_eq s s' : Array.shape_eqb s s' = true -> s = s'.
Proof.
  destruct s as [r c], s' as [r' c']. unfold Array.shape_eqb; simpl.
  intros H. apply andb_true_iff in H as [Hr Hc].
  apply Nat.eqb_eq in Hr, Hc. congruence.
Qed.

Lemma binop_shape f a b c :
  Array.binop f a b = Return c ->
  Array.shape c = Array.shape a /\ Array.shape a = Array.shape b /\
  Array.data c = Array.zip_with f (Array.data a) (Array.data b).
Proof.
  unfold Array.binop.
  destruct (Array.shape_eqb _ _) eqn:E; [|discriminate].
  intros [= <-]. apply shape_eqb_eq in E. now repeat split.
Qed.

Lemma compute_ndvi_data nir red v :
  compute_ndvi nir red = Return v ->
  Array.shape v = Array.shape nir /\
  Array.data v =
    Array.zip_with Qdiv (Array.zip_with Qminus (Array.data nir) (Array.data red))
      (map (fun s => s + eps)
         (Array.zip_with Qplus (Array.data nir) (Array.data red))).
Proof.
  unfold compute_ndvi, Array.sub, Array.add, Array.div, Array.binop.
  destruct (Array.shape_eqb (Array.shape nir) (Array.shape red)); simpl;
    [|discriminate].
  rewrite shape_eqb_refl. now intros [= <-].
Qed.

Lemma compute_ndbi_data nir swir v :
  compute_ndbi nir swir = Return v ->
  Array.shape v = Array.shape swir /\
  Array.data v =
    Array.zip_with Qdiv
      (Array.zip_with Qminus (map (fun x => x / 10000) (Array.data swir))
                             (map (fun x => x / 10000) (Array.data nir)))
      (map (fun s => s + eps)
         (Array.zip_with Qplus (map (fun x => x / 10000) (Array.data swir))
                               (map (fun x => x / 10000) (Array.data nir)))).
Proof.
  unfold compute_ndbi, Array.sub, Array.add, Array.div, Array.binop; simpl.
  destruct (Array.shape_eqb (Array.shape swir) (Array.shape nir)); simpl;
    [|discriminate].
  rewrite shape_eqb_refl. now intros [= <-].
Qed.

Lemma band_shape img k a :
  band img k = Return a -> Array.shape a = (img_rows img, img_cols img).
Proof.
  unfold band. destruct (nth_error _ _); [|discriminate]. now intros [= <-].
Qed.

Section Shapes.

Context {ext : Externals}.

(** What [index_deltas] has computed when it returns. *)
Lemma index_deltas_stages old_img new_img d :
  index_deltas old_img new_img = Return d ->
  exists old_blur new_blur nir_old red_old swir_old nir_new red_new swir_new
         ndvi_old ndvi_new ndbi_old ndbi_new,
    GaussianBlur old_img = Return old_blur /\
    GaussianBlur new_img = Return new_blur /\
    band old_blur 3 = Return nir_old /\ band old_blur 2 = Return red_old /\
    band old_blur 4 = Return swir_old /\
    band new_blur 3 = Return nir_new /\ band new_blur 2 = Return red_new /\
    band new_blur 4 = Return swir_new /\
    compute_ndvi nir_old red_old = Return ndvi_old /\
    compute_ndvi nir_new red_new = Return ndvi_new /\
    compute_ndbi nir_old swir_old = Return ndbi_old /\
    compute_ndbi nir_new swir_new = Return ndbi_new /\
    Array.sub ndvi_new ndvi_old = Return (ndvi_diff d) /\
    Array.sub ndbi_new ndbi_old = Return (ndbi_diff d) /\
    features d = combine (Array.data (ndvi_diff d)) (Array.data (ndbi_diff d)).
Proof.
  unfold index_deltas.
  destruct (GaussianBlur old_img) as [old_blur|?] eqn:E1; simpl; [|discriminate].
  destruct (GaussianBlur new_img) as [new_blur|?] eqn:E2; simpl; [|discriminate].
  destruct (band old_blur 3) as [nir_old|?] eqn:E3; simpl; [|discriminate].
  destruct (band old_blur 2) as [red_old|?] eqn:E4; simpl; [|discriminate].
  destruct (band old_blur 4) as [swir_old|?] eqn:E5; simpl; [|discriminate].
  destruct (band new_blur 3) as [nir_new|?] eqn:E6; simpl; [|discriminate].
  destruct (band new_blur 2) as [red_new|?] eqn:E7; simpl; [|discriminate].
  destruct (band new_blur 4) as [swir_new|?] eqn:E8; simpl; [|discriminate].
  destruct (compute_ndvi nir_old red_old) as [ndvi_old|?] eqn:E9; simpl; [|discriminate].
  destruct (compute_ndvi nir_new red_new) as [ndvi_new|?] eqn:E10; simpl; [|discriminate].
  destruct (compute_ndbi nir_old swir_old) as [ndbi_old|?] eqn:E11; simpl; [|discriminate].
  destruct (compute_ndbi nir_new swir_new) as [ndbi_new|?] eqn:E12; simpl; [|discriminate].
  destruct (Array.sub ndvi_new ndvi_old) as [dv|?] eqn:E13; simpl; [|discriminate].
  destruct (Array.sub ndbi_new ndbi_old) as [db|?] eqn:E14; simpl; [|discriminate].
  intros [= <-]; simpl.
  exists old_blur, new_blur, nir_old, red_old, swir_old, nir_new, red_new, swir_new,
         ndvi_old, ndvi_new, ndbi_old, ndbi_new.
  repeat split; assumption || reflexivity.
Qed.

Hypothesis shapes : opencv_shapes.

Lemma decode_and_resize_shape old_b64 new_b64 old_img new_img :
  decode_and_resize old_b64 new_b64 = Return (old_img, new_img) ->
  img_rows old_img = 512%nat /\ img_cols old_img = 512%nat.
Proof.
  unfold decode_and_resize, resize_images.
  destruct (decode_image old_b64) as [o|?]; simpl; [|discriminate].
  destruct (decode_image new_b64) as [n|?]; simpl; [|discriminate].
  destruct (resize o (512, 512)%nat) as [o'|?] eqn:Ho; simpl; [|discriminate].
  destruct (resize n (512, 512)%nat) as [n'|?]; simpl; [|discriminate].
  intros [= <- <-]. exact (resize_shape shapes _ _ _ Ho).
Qed.

(** The anomaly mask has the size of the reference raster. *)
Lemma anomaly_mask_shape e old_img new_img d scores preds m :
  index_deltas old_img new_img = Return d ->
  anomaly_mask e d = Return (scores, preds, m) ->
  mask_shape m = (img_rows old_img, img_cols old_img).
Proof.
  intros Hd Hm.
  destruct (index_deltas_stages _ _ Hd)
    as (ob & nb & nir_old & red_old & swir_old & nir_new & red_new & swir_new &
        ndvi_old & ndvi_new & ndbi_old & ndbi_new &
        Hbo & _ & Hb & _ & _ & _ & _ & _ & Hv & _ & _ & _ & Hsub & _).
  apply anomaly_mask_scores in Hm as [_ [_ Hclose]].
  apply (morphologyEx_shape shapes) in Hclose. simpl in Hclose.
  apply binop_shape in Hsub as [Hs1 [Hs2 _]].
  apply compute_ndvi_data in Hv as [Hs3 _].
  apply band_shape in Hb.
  destruct (GaussianBlur_shape shapes _ Hbo) as [Hr Hc].
  congruence.
Qed.

End Shapes.

(* ------------------------------------------------------------------ *)
(** ** The reported box *)

Section ReportedBox.

Context {ext : Externals}.

Lemma survivor_or_none (cs : list contour) :
  Forall (fun c => survives c = false) cs \/
  exists c, In c cs /\ survives c = true.
Proof.
  induction cs as [|c cs [IH|[c' [Hin Hc']]]].
  - left. constructor.
  - destruct (survives c) eqn:Hc.
    + right. exists c. split; [now left|exact Hc].
    + left. now constructor.
  - right. exists c'. split; [now right|exact Hc'].
Qed.

(** The box accumulated over contours found in a 512 x 512 mask, one of
    which at least passes the filter, is strictly ordered and inside the
    tile. *)
Lemma hull_in_tile cs :
  Forall (fun c => rect_in_mask (512, 512)%nat (boundingRect c)) cs ->
  (exists c, In c cs /\ survives c = true) ->
  (0 <= x_min (hull cs) < x_max (hull cs) /\ x_max (hull cs) <= 512 /\
   0 <= y_min (hull cs) < y_max (hull cs) /\ y_max (hull cs) <= 512)%Z.
Proof.
  intros Hin [c [Hc Hs]]. rewrite Forall_forall in Hin.
  destruct (fold_widen_encloses cs (Boxes 512 512 0 0 [])) as [_ Henc].
  specialize (Henc c Hc Hs). fold (hull cs) in Henc.
  assert (Hwithin : (0 <= x_min (hull cs) /\ 0 <= y_min (hull cs) /\
                     x_max (hull cs) <= 512 /\ y_max (hull cs) <= 512)%Z).
  { apply fold_widen_within; [simpl; lia|].
    intros c' Hc' _. specialize (Hin c' Hc').
    destruct (boundingRect c') as [[[x y] w] h].
    unfold rect_in_mask in Hin. cbn [fst snd] in Hin.
    change (Z.of_nat 512) with 512%Z in Hin. simpl. lia. }
  specialize (Hin c Hc).
  destruct (boundingRect c) as [[[x y] w] h].
  unfold rect_in_mask in Hin. simpl in Henc. lia.
Qed.

Lemma find_regions_found m b :
  find_regions m = Return (Some b) ->
  exists cs, findContours m = Return cs /\ extract_regions cs = Return (Some b).
Proof.
  unfold find_regions.
  destruct (findContours m) as [cs|ex]; simpl; [|discriminate].
  intros H. now exists cs.
Qed.

(** The box of a result built by line 142 is the box accumulated over the
    contours, and some contour has passed the filter. *)
Lemma extract_regions_hull cs b :
  extract_regions cs = Return (Some b) ->
  (x_min b = x_min (hull cs) /\ y_min b = y_min (hull cs) /\
   x_max b = x_max (hull cs) /\ y_max b = y_max (hull cs)) /\
  exists c, In c cs /\ survives c = true.
Proof.
  intros H. apply extract_regions_loop in H as [Hloop Hdeg].
  destruct (for_contours_widen _ _ Hloop) as [K1 [K2 [K3 [K4 _]]]].
  fold (hull cs) in K1, K2, K3, K4. split; [tauto|].
  destruct (survivor_or_none cs) as [Hnone|Hsome]; [exfalso|exact Hsome].
  unfold hull in K1, K2, K3, K4. rewrite (fold_widen_none _ Hnone) in K1, K2, K3, K4.
  unfold degenerate in Hdeg. rewrite K1, K3 in Hdeg. simpl in Hdeg. discriminate.
Qed.

Hypothesis shapes : opencv_shapes.

Lemma computed_bbox_in_tile r :
  computed r ->
  exists x0 y0 x1 y1,
    get_bbox r = Some [x0; y0; x1; y1] /\
    (0 <= x0 < x1 /\ x1 <= 512 /\ 0 <= y0 < y1 /\ y1 <= 512)%Z.
Proof.
  intros [e dir o n oi ni0 ni d scores preds m b Hdec _ Hd Hm Hreg].
  exists (x_min b), (y_min b), (x_max b), (y_max b). split; [reflexivity|].
  destruct (decode_and_resize_shape shapes _ _ Hdec) as [Hrows Hcols].
  pose proof (@anomaly_mask_shape _ shapes e oi ni d scores preds m Hd Hm)
    as Hshape.
  rewrite Hrows, Hcols in Hshape.
  apply find_regions_found in Hreg as [cs [Hcs Hreg]].
  apply (contours_in_mask shapes) in Hcs as Hin. rewrite Hshape in Hin.
  destruct (extract_regions_hull _ Hreg) as [[K1 [K2 [K3 K4]]] Hsome].
  pose proof (hull_in_tile Hin Hsome) as Hb. lia.
Qed.


End ReportedBox.

Lemma miniature_shapes : opencv_shapes (ext := Miniature.externals).
Proof.
  split.
  - intros img w h img'. simpl. intros [= <-]. now split.
  - intros img img'. simpl. intros [= <-]. now split.
  - intros m m'. simpl. now intros [= <-].
  - intros m cs. simpl. intros [= <-].
    apply Forall_forall. intros c Hc. apply filter_In in Hc as [Hc Hfit].
    assert (Htable : In c [Miniature.speck; Miniature.fleck; Miniature.block;
                           Miniature.slab]).
    { destruct (count_occ Z.eq_dec (mask_data m) 255%Z) as [|[|[|[|k]]]];
        simpl in Hc; simpl; tauto. }
    unfold Miniature.fits in Hfit.
    destruct Htable as [<-|[<-|[<-|[<-|[]]]]]; simpl in *;
      repeat (apply andb_true_iff in Hfit as [Hfit ?]);
      repeat match goal with H : (_ <=? _)%Z = true |- _ => apply Z.leb_le in H end;
      lia.
Qed.


(* ------------------------------------------------------------------ *)
(** ** The confidence *)

Lemma rint_le (q : Q) (hi : Z) : q <= inject_Z hi -> (rint q <= hi)%Z.
Proof.
  intros Hhi.
  pose proof (Qfloor_le q) as Hfl.
  assert (Hn_hi : (Qfloor q <= hi)%Z).
  { rewrite <- (Qfloor_Z hi). now apply Qfloor_resp_le. }
  assert (Hup : inject_Z (Qfloor q) < q -> (Qfloor q + 1 <= hi)%Z).
  { intros Hlt.
    assert (inject_Z (Qfloor q) < inject_Z hi) as H by (eapply Qlt_le_trans; eauto).
    rewrite <- Zlt_Qlt in H. lia. }
  unfold rint.
  destruct (Qcompare (q - inject_Z (Qfloor q)) (1 # 2)) eqn:Hc.
  - apply Qeq_alt in Hc.
    destruct (Z.even (Qfloor q)); [lia|]. apply Hup. lra.
  - lia.
  - apply Qgt_alt in Hc. apply Hup. lra.
Qed.

Lemma round2_nonpositive (q : Q) : q <= 0 -> round2 q <= 0.
Proof.
  intros Hq.
  assert (H : (rint (q * 100) <= 0)%Z).
  { apply rint_le. change (inject_Z 0) with 0. lra. }
  unfold round2, Qdiv, Qle; simpl. lia.
Qed.

(** At a decimal tie the rounding goes to the even hundredth: 0.015 and
    0.025 both give 0.02, and -0.015 gives -0.02. *)
Lemma round2_ties :
  round2 (3 # 200) == 1 # 50 /\ round2 (5 # 200) == 1 # 50 /\
  round2 (- (3 # 200)) == - (1 # 50).
Proof. repeat split. Qed.

Lemma sum_nonpositive (xs : list Q) :
  Forall (fun x => x < 0) xs -> Array.sum xs <= 0.
Proof.
  induction 1 as [|x xs Hx _ IH]; simpl; [apply Qle_refl|lra].
Qed.

Lemma mean_nonpositive (xs : list Q) :
  Forall (fun x => x < 0) xs -> Array.mean xs <= 0.
Proof.
  intros Hxs. pose proof (sum_nonpositive Hxs) as Hsum.
  unfold Array.mean. destruct xs as [|x xs].
  - apply Qle_bool_iff. reflexivity.
  - set (n := inject_Z (Z.of_nat (length (x :: xs)))) in *.
    assert (Hn : 0 < n).
    { unfold n. change 0 with (inject_Z 0). rewrite <- Zlt_Qlt. simpl. lia. }
    apply Qle_shift_div_r; [exact Hn|]. lra.
Qed.

(** [scores[preds == -1]] keeps the scores below zero, in their order, and
    [np.any(preds == -1)] tells whether there is one. *)
Lemma select_predict : forall xs,
  select xs (predict xs) = filter (fun s => Qlt_b s 0) xs /\
  existsb (fun p => (p =? -1)%Z) (predict xs) = existsb (fun s => Qlt_b s 0) xs.
Proof.
  unfold select.
  induction xs as [|s ss [IH1 IH2]]; simpl; [now split|].
  destruct (Qlt_b s 0); simpl; rewrite IH1; split; auto.
Qed.

Lemma existsb_filter (A : Type) (p : A -> bool) : forall xs,
  existsb p xs = match filter p xs with [] => false | _ => true end.
Proof.
  induction xs as [|x xs IH]; simpl; [reflexivity|].
  destruct (p x); simpl; [reflexivity|exact IH].
Qed.

Lemma filter_negative (xs : list Q) :
  Forall (fun s => s < 0) (filter (fun s => Qlt_b s 0) xs).
Proof.
  apply Forall_forall. intros s Hs. apply filter_In in Hs as [_ Hs].
  now apply Qlt_b_true.
Qed.

Lemma confidence_of_flagged (scores : list Q) :
  let flagged := filter (fun s => Qlt_b s 0) scores in
  confidence_of scores (predict scores) =
    round2 (match flagged with [] => 0 | _ => Array.mean flagged end) /\
  confidence_of scores (predict scores) <= 0.
Proof.
  intros flagged. unfold confidence_of.
  destruct (select_predict scores) as [-> ->]. rewrite existsb_filter.
  fold flagged. split.
  - now destruct flagged.
  - apply round2_nonpositive.
    pose proof (filter_negative scores) as Hneg. fold flagged in Hneg.
    destruct flagged; [apply Qle_refl|now apply mean_nonpositive].
Qed.

Section Confidence.

Context {ext : Externals}.

Lemma computed_confidence r :
  computed r ->
  detected r = true /\
  exists scores,
    get_confidence r = Some (confidence_of scores (predict scores)).
Proof.
  intros [e dir o n oi ni0 ni d scores preds m b _ _ _ Hm _].
  apply anomaly_mask_scores in Hm as [_ [-> _]].
  split; [reflexivity|]. now exists scores.
Qed.


End Confidence.



(* ------------------------------------------------------------------ *)
(** ** The result cache *)

Section ResultCache.

Context {ext : Externals}.

(** The polygons of the contours OpenCV finds have one coordinate row per
    point. *)
Hypothesis layout : forall m cs,
  findContours m = Return cs -> Forall opencv_layout cs.

Lemma layout_miss s e old_b64 new_b64 dir :
  reachable s ->
  detect_illegal_construction e old_b64 new_b64 dir s =
    compute e (cache_key old_b64 new_b64) dir old_b64 new_b64 s.
Proof.
  intros Hs. apply detect_miss, contains_empty. now apply layout_empty_cache.
Qed.


(* ------------------------------------------------------------------ *)
(** ** Determinism *)

(** The report of the pipeline is a function of the two payloads and of what
    [os.makedirs] does. *)
Lemma compute_report e1 e2 key1 key2 dir1 dir2 old_b64 new_b64 s1 s2 :
  makedirs e1 dir1 = makedirs e2 dir2 ->
  report (fst (compute e1 key1 dir1 old_b64 new_b64 s1)) =
  report (fst (compute e2 key2 dir2 old_b64 new_b64 s2)).
Proof.
  intros Hmk. unfold compute. rewrite Hmk.
  destruct (makedirs e2 dir2) as [u|ex]; [|reflexivity].
  destruct (obind (decode_and_resize old_b64 new_b64) _) as [[o n]|ex];
    [|reflexivity].
  unfold after_alignment.
  destruct (index_deltas o n) as [d|ex]; [|reflexivity].
  assert (Hmask : anomaly_mask e1 d = anomaly_mask e2 d) by reflexivity.
  rewrite Hmask.
  destruct (anomaly_mask e2 d) as [[[scores preds] m]|ex]; [|reflexivity].
  unfold report_regions.
  destruct (find_regions m) as [[b|]|ex]; reflexivity.
Qed.


End ResultCache.

Lemma miniature_layout m cs :
  findContours (Externals := Miniature.externals) m = Return cs ->
  Forall (opencv_layout (ext := Miniature.externals)) cs.
Proof.
  simpl. intros [= <-].
  apply Forall_forall. intros c Hc. apply filter_In in Hc as [Hc _].
  assert (Htable : In c [Miniature.speck; Miniature.fleck; Miniature.block;
                         Miniature.slab]).
  { destruct (count_occ Z.eq_dec (mask_data m) 255%Z) as [|[|[|[|k]]]];
      simpl in Hc; simpl; tauto. }
  destruct Htable as [<-|[<-|[<-|[<-|[]]]]];
    (split; [discriminate|repeat constructor]).
Qed.



(* ------------------------------------------------------------------ *)
(** ** Co-registration *)

Lemma insert_by_distance_length m : forall ms,
  length (insert_by_distance m ms) = S (length ms).
Proof.
  induction ms as [|m' ms IH]; simpl; [reflexivity|].
  destruct (Qlt_b _ _); simpl; [now rewrite IH|reflexivity].
Qed.

Lemma sorted_by_distance_length : forall ms,
  length (sorted_by_distance ms) = length ms.
Proof.
  induction ms as [|m ms IH]; simpl; [reflexivity|].
  now rewrite insert_by_distance_length, IH.
Qed.

Section Alignment.

Context {ext : Externals}.

(** The guard of line 49 is reached only when the two feature extractions
    and the matching have returned; then fewer than four matches hand the
    target raster on as it is. *)
Lemma align_images_skipped img1 img2 kp1 des1 kp2 des2 ms :
  detectAndCompute img1 = Return (kp1, des1) ->
  detectAndCompute img2 = Return (kp2, des2) ->
  bf_match des1 des2 = Return ms ->
  (length ms < 4)%nat ->
  align_images img1 img2 = Return img2.
Proof.
  intros Hk1 Hk2 Hm Hlen.
  unfold align_images. rewrite Hk1; simpl. rewrite Hk2; simpl.
  rewrite Hm; simpl. rewrite sorted_by_distance_length.
  apply Nat.ltb_lt in Hlen. now rewrite Hlen.
Qed.

Lemma align_images_raises img1 img2 ex :
  (detectAndCompute img1 = Raise ex \/
   (exists kd, detectAndCompute img1 = Return kd) /\
   detectAndCompute img2 = Raise ex \/
   (exists kp1 des1 kp2 des2,
      detectAndCompute img1 = Return (kp1, des1) /\
      detectAndCompute img2 = Return (kp2, des2) /\
      bf_match des1 des2 = Raise ex)) ->
  align_images img1 img2 = Raise ex.
Proof.
  unfold align_images.
  intros [H1|[[[[kp1 des1] H1] H2]|[kp1 [des1 [kp2 [des2 [H1 [H2 H3]]]]]]]].
  - now rewrite H1.
  - rewrite H1; simpl. now rewrite H2.
  - rewrite H1; simpl. rewrite H2; simpl. now rewrite H3.
Qed.

(** C4, what the code does.  When ORB fails on one of the rasters, or the
    matcher on their descriptors, nothing in [align_images] catches the
    exception, and nothing in the caller: a call that has missed the cache,
    made its directory and decoded the pair fails with that exception, before
    any band is read.  The fallback of line 49 is not reached. *)
Theorem alignment_failure_is_fatal img1 img2 ex :
  (detectAndCompute img1 = Raise ex \/
   (exists kd, detectAndCompute img1 = Return kd) /\
   detectAndCompute img2 = Raise ex \/
   (exists kp1 des1 kp2 des2,
      detectAndCompute img1 = Return (kp1, des1) /\
      detectAndCompute img2 = Return (kp2, des2) /\
      bf_match des1 des2 = Raise ex)) ->
  align_images img1 img2 = Raise ex /\
  forall e old_b64 new_b64 dir s,
    TTLCache.contains (clock e) (mask_cache s) (cache_key old_b64 new_b64) = false ->
    makedirs e dir = Return tt ->
    decode_and_resize old_b64 new_b64 = Return (img1, img2) ->
    detect_illegal_construction e old_b64 new_b64 dir s =
      (Raise ex,
       State (mask_cache s) (fit_calls s) (written s) (dirs s ++ [dir])).
Proof.
  intros Hfail. pose proof (@align_images_raises img1 img2 ex Hfail) as Halign.
  split; [exact Halign|].
  intros e old_b64 new_b64 dir s Hmiss Hmk Hdec.
  rewrite (detect_miss _ _ _ _ _ Hmiss). unfold compute.
  rewrite Hmk, Hdec; simpl. now rewrite Halign.
Qed.

End Alignment.

Lemma alignment_failure_is_fatal_witness :
  exists ex,
    detectAndCompute (Externals := Miniature.externals) Miniature.blank = Raise ex /\
    align_images (ext := Miniature.externals) Miniature.blank Miniature.blank =
      Raise ex.
Proof.
  eexists. split; [reflexivity|].
  refine (proj1 (@alignment_failure_is_fatal Miniature.externals
            Miniature.blank Miniature.blank _ _)).
  left. reflexivity.
Defined.

(* ------------------------------------------------------------------ *)
(** ** The batch *)

Lemma nth_error_zip (A B : Type) : forall (xs : list A) (ys : list B) i x y,
  nth_error xs i = Some x -> nth_error ys i = Some y ->
  nth_error (combine xs ys) i = Some (x, y).
Proof.
  induction xs as [|x0 xs IH]; intros [|y0 ys] [|i] x y Hx Hy;
    simpl in *; try discriminate.
  - congruence.
  - now apply IH.
Qed.

Section Batch.

Context {ext : Externals}.

Lemma gather_coroutines (bodies : list (env -> state -> outcome result * state)) :
  forall s,
    gather_return_exceptions (map (fun b => to_thread (call_async b)) bodies) s =
      (map CoroutineObj bodies, s).
Proof.
  induction bodies as [|b bs IH]; intros s; simpl; [reflexivity|].
  now rewrite IH.
Qed.

(** C9, what the code does.  [batch_detect] returns one slot per zipped pair,
    but every slot holds the coroutine object that calling the [async def]
    function in the worker thread produced: no slot holds a result or an
    exception, and no pipeline has run, the state being as before.  Only
    awaiting slot [i] would run the detection of pair [i]. *)
Theorem batch_detect_returns_coroutines old_b64s new_b64s dir s :
  let run := batch_detect old_b64s new_b64s dir s in
  snd run = s /\
  length (fst run) = Nat.min (length old_b64s) (length new_b64s) /\
  Forall (fun v => exists body, v = CoroutineObj body) (fst run) /\
  forall i old new,
    nth_error old_b64s i = Some old -> nth_error new_b64s i = Some new ->
    exists v, nth_error (fst run) i = Some v /\
              forall e s', await v e s' = detect_illegal_construction e old new dir s'.
Proof.
  intros run.
  assert (Hrun : run =
            (map CoroutineObj
               (map (fun p e => detect_illegal_construction e (fst p) (snd p) dir)
                    (combine old_b64s new_b64s)), s)).
  { unfold run, batch_detect. rewrite <- gather_coroutines.
    f_equal. rewrite map_map. apply map_ext. now intros [o n]. }
  rewrite Hrun; simpl. split; [reflexivity|]. split; [|split].
  - now rewrite !length_map, length_combine.
  - apply Forall_forall. intros v Hv.
    apply in_map_iff in Hv as [body [<- _]]. now exists body.
  - intros i old new Ho Hn.
    eexists. split.
    + rewrite !nth_error_map, (nth_error_zip _ _ _ Ho Hn). reflexivity.
    + reflexivity.
Qed.

End Batch.

Lemma batch_detect_returns_coroutines_witness :
  exists v,
    nth_error (fst (batch_detect (ext := Miniature.externals) ["B"; "x"]%string
                      ["S1"; "B"]%string "static/masks" initial_state)) 1 = Some v /\
    forall e s', await v e s' =
      detect_illegal_construction (ext := Miniature.externals) e "x" "B"
        "static/masks" s'.
Proof.
  destruct (@batch_detect_returns_coroutines Miniature.externals
              ["B"; "x"]%string ["S1"; "B"]%string "static/masks" initial_state)
    as [_ [_ [_ Hslot]]].
  exact (Hslot 1%nat "x"%string "B"%string eq_refl eq_refl).
Defined.

(** The batch ["B", "x"] against ["S1", "B"]: no payload of it is an
    image, so a detection of either pair would fail in the decoder.  Both
    slots come back as coroutine objects all the same, and nothing has
    run. *)
Lemma batch_of_two_pairs :
  let run := batch_detect (ext := Miniature.externals) ["B"; "x"]%string
               ["S1"; "B"]%string "static/masks" initial_state in
  (forall v, In v (fst run) ->
     (forall r, v <> Dict r) /\ (forall ex, v <> ExceptionObj ex)) /\
  fit_calls (snd run) = 0%nat /\
  fst (Miniature.detect (Miniature.at_time 0) "x" "B" "static/masks" initial_state) =
    Raise (Exn RetryError "Failed to decode image").
Proof.
  simpl. repeat split; try discriminate;
    destruct H as [<-|[<-|[]]]; discriminate.
Qed.

(* ================================================================== *)
(** * Further properties of the engine *)

(* ------------------------------------------------------------------ *)
(** ** Range of the spectral indices *)

Lemma normalized_difference_range (a b : Q) :
  0 <= a -> 0 <= b -> -1 <= (a - b) / (a + b + eps) <= 1.
Proof.
  intros Ha Hb. unfold eps.
  assert (Hden : 0 < a + b + (1 # 1000000)) by lra.
  split.
  - apply Qle_shift_div_l; [exact Hden|lra].
  - apply Qle_shift_div_r; [exact Hden|lra].
Qed.

Lemma normalized_difference_all (P : Q -> Prop)
    (HP : forall a b, 0 <= a -> 0 <= b -> P ((a - b) / (a + b + eps))) :
  forall xs ys,
    Forall (fun x => 0 <= x) xs -> Forall (fun y => 0 <= y) ys ->
    Forall P (Array.zip_with Qdiv (Array.zip_with Qminus xs ys)
                (map (fun s => s + eps) (Array.zip_with Qplus xs ys))).
Proof.
  induction xs as [|x xs IH]; intros [|y ys] Hx Hy; simpl; try constructor.
  - inversion Hx; inversion Hy; subst. now apply HP.
  - inversion Hx; inversion Hy; subst. now apply IH.
Qed.

Lemma scaled_nonnegative (xs : list Q) :
  Forall (fun x => 0 <= x) xs -> Forall (fun x => 0 <= x) (map (fun x => x / 10000) xs).
Proof.
  intros H. apply Forall_forall. intros y Hy.
  apply in_map_iff in Hy as [x [<- Hx]].
  rewrite Forall_forall in H. specialize (H x Hx).
  apply Qle_shift_div_l; [reflexivity|lra].
Qed.

Lemma compute_ndvi_range nir red v :
  Forall (fun x => 0 <= x) (Array.data nir) ->
  Forall (fun x => 0 <= x) (Array.data red) ->
  compute_ndvi nir red = Return v ->
  Forall (fun x => -1 <= x <= 1) (Array.data v).
Proof.
  intros Hn Hr Hv. apply compute_ndvi_data in Hv as [_ ->].
  apply normalized_difference_all; auto using normalized_difference_range.
Qed.

Lemma compute_ndbi_range nir swir v :
  Forall (fun x => 0 <= x) (Array.data nir) ->
  Forall (fun x => 0 <= x) (Array.data swir) ->
  compute_ndbi nir swir = Return v ->
  Forall (fun x => -1 <= x <= 1) (Array.data v).
Proof.
  intros Hn Hs Hv. apply compute_ndbi_data in Hv as [_ ->].
  apply normalized_difference_all;
    auto using normalized_difference_range, scaled_nonnegative.
Qed.

(** X1. On bands without negative values the vegetation index and the
    built-up index lie between -1 and 1 at every pixel. *)
Theorem spectral_indices_range (nir red swir ndvi ndbi : Array.t) :
  Forall (fun x => 0 <= x) (Array.data nir) ->
  Forall (fun x => 0 <= x) (Array.data red) ->
  Forall (fun x => 0 <= x) (Array.data swir) ->
  compute_ndvi nir red = Return ndvi ->
  compute_ndbi nir swir = Return ndbi ->
  Forall (fun x => -1 <= x <= 1) (Array.data ndvi) /\
  Forall (fun x => -1 <= x <= 1) (Array.data ndbi).
Proof.
  intros Hn Hr Hs Hv Hb. split.
  - exact (@compute_ndvi_range nir red ndvi Hn Hr Hv).
  - exact (@compute_ndbi_range nir swir ndbi Hn Hs Hb).
Qed.

Lemma spectral_indices_range_witness :
  exists ndvi ndbi,
    compute_ndvi (Array.mk (1, 2)%nat [3000; 0]) (Array.mk (1, 2)%nat [1000; 0]) =
      Return ndvi /\
    compute_ndbi (Array.mk (1, 2)%nat [3000; 0]) (Array.mk (1, 2)%nat [5000; 0]) =
      Return ndbi /\
    Forall (fun x => -1 <= x <= 1) (Array.data ndvi) /\
    Forall (fun x => -1 <= x <= 1) (Array.data ndbi).
Proof.
  eexists; eexists. split; [reflexivity|]. split; [reflexivity|].
  apply (@spectral_indices_range
           (Array.mk (1, 2)%nat [3000; 0]) (Array.mk (1, 2)%nat [1000; 0])
           (Array.mk (1, 2)%nat [5000; 0]));
    try reflexivity;
    repeat constructor; discriminate.
Defined.

Lemma zip_with_forall (P P' R : Q -> Prop) (f : Q -> Q -> Q)
    (Hf : forall x y, P x -> P' y -> R (f x y)) :
  forall xs ys, Forall P xs -> Forall P' ys -> Forall R (Array.zip_with f xs ys).
Proof.
  induction xs as [|x xs IH]; intros [|y ys] Hx Hy; simpl; try constructor.
  - inversion Hx; inversion Hy; subst. now apply Hf.
  - inversion Hx; inversion Hy; subst. now apply IH.
Qed.

Lemma band_nonnegative img k a :
  nonneg_pixels img -> band img k = Return a ->
  Forall (fun x => 0 <= x) (Array.data a).
Proof.
  unfold band, nonneg_pixels. intros Hpx.
  destruct (nth_error (img_bands img) k) as [px|] eqn:Hk; [|discriminate].
  intros [= <-]; simpl.
  apply nth_error_In in Hk. rewrite Forall_forall in Hpx. specialize (Hpx px Hk).
  apply Forall_forall. intros y Hy. apply in_map_iff in Hy as [p [<- Hp]].
  rewrite Forall_forall in Hpx. specialize (Hpx p Hp).
  change 0 with (inject_Z 0). now rewrite <- Zle_Qle.
Qed.

Lemma sub_range a b c :
  Forall (fun x => -1 <= x <= 1) (Array.data a) ->
  Forall (fun x => -1 <= x <= 1) (Array.data b) ->
  Array.sub a b = Return c ->
  Forall (fun x => -2 <= x <= 2) (Array.data c).
Proof.
  intros Ha Hb Hsub. apply binop_shape in Hsub as [_ [_ ->]].
  apply (zip_with_forall (P := fun x => -1 <= x <= 1) (P' := fun x => -1 <= x <= 1));
    auto.
  intros x y Hx Hy. lra.
Qed.

Section Deltas.

Context {ext : Externals}.

(** X2. When the denoised rasters have no negative pixel, the differences of
    the two indices between the scenes lie between -2 and 2 at every
    pixel. *)
Theorem index_deltas_range old_img new_img old_blur new_blur d :
  GaussianBlur old_img = Return old_blur ->
  GaussianBlur new_img = Return new_blur ->
  nonneg_pixels old_blur -> nonneg_pixels new_blur ->
  index_deltas old_img new_img = Return d ->
  Forall (fun x => -2 <= x <= 2) (Array.data (ndvi_diff d)) /\
  Forall (fun x => -2 <= x <= 2) (Array.data (ndbi_diff d)).
Proof.
  intros Hbo Hbn Ho Hn Hd.
  destruct (index_deltas_stages _ _ Hd)
    as (ob & nb & nir_old & red_old & swir_old & nir_new & red_new & swir_new &
        ndvi_old & ndvi_new & ndbi_old & ndbi_new &
        Hbo' & Hbn' & H1 & H2 & H3 & H4 & H5 & H6 & H7 & H8 & H9 & H10 &
        H11 & H12 & _).
  assert (ob = old_blur) as -> by congruence.
  assert (nb = new_blur) as -> by congruence.
  pose proof (band_nonnegative _ Ho H1) as N1.
  pose proof (band_nonnegative _ Ho H2) as N2.
  pose proof (band_nonnegative _ Ho H3) as N3.
  pose proof (band_nonnegative _ Hn H4) as N4.
  pose proof (band_nonnegative _ Hn H5) as N5.
  pose proof (band_nonnegative _ Hn H6) as N6.
  pose proof (@compute_ndvi_range nir_old red_old ndvi_old N1 N2 H7) as Hv_old.
  pose proof (@compute_ndvi_range nir_new red_new ndvi_new N4 N5 H8) as Hv_new.
  pose proof (@compute_ndbi_range nir_old swir_old ndbi_old N1 N3 H9) as Hb_old.
  pose proof (@compute_ndbi_range nir_new swir_new ndbi_new N4 N6 H10) as Hb_new.
  split.
  - exact (@sub_range ndvi_new ndvi_old _ Hv_new Hv_old H11).
  - exact (@sub_range ndbi_new ndbi_old _ Hb_new Hb_old H12).
Qed.

(** Fewer than five bands in a denoised raster: the band extraction of
    lines 83-88 raises. *)
Lemma index_deltas_few_bands old_img new_img old_blur new_blur :
  GaussianBlur old_img = Return old_blur ->
  GaussianBlur new_img = Return new_blur ->
  (length (img_bands old_blur) < 5 \/ length (img_bands new_blur) < 5)%nat ->
  index_deltas old_img new_img =
    Raise (Exn IndexError "index is out of bounds for axis 2").
Proof.
  intros Hbo Hbn Hlen. unfold index_deltas.
  rewrite Hbo; simpl. rewrite Hbn; simpl. unfold band.
  destruct old_blur as [r c bs]; destruct new_blur as [r' c' bs']; simpl in *.
  destruct bs as [|b0 [|b1 [|b2 [|b3 [|b4 bs]]]]]; simpl in *; try reflexivity.
  destruct bs' as [|a0 [|a1 [|a2 [|a3 [|a4 bs']]]]]; simpl in *; try reflexivity.
  lia.
Qed.

(** X3. A denoised raster with fewer than five bands stops the call at the
    band extraction with [IndexError]: the scorer is not fitted and the state
    is left as it was. *)
Theorem too_few_bands_raises e key dir old_img new_img old_blur new_blur s :
  GaussianBlur old_img = Return old_blur ->
  GaussianBlur new_img = Return new_blur ->
  (length (img_bands old_blur) < 5 \/ length (img_bands new_blur) < 5)%nat ->
  after_alignment e key dir old_img new_img s =
    (Raise (Exn IndexError "index is out of bounds for axis 2"), s).
Proof.
  intros Hbo Hbn Hlen. unfold after_alignment.
  now rewrite (index_deltas_few_bands _ _ Hbo Hbn Hlen).
Qed.

Lemma decode_image_failure image_b64 ex :
  decode_once image_b64 = Raise ex ->
  decode_image image_b64 = Raise (Exn RetryError (exn_msg ex)).
Proof.
  intros He. unfold decode_image, decode_image_run, Tenacity.retry.
  rewrite attempts_constant_failure with (e := ex); auto.
  unfold Tenacity.retry_if_exception_type.
  now rewrite (decode_once_raises _ He).
Qed.

Lemma decode_image_success image_b64 img :
  decode_once image_b64 = Return img -> decode_image image_b64 = Return img.
Proof.
  intros He. unfold decode_image, decode_image_run, Tenacity.retry; simpl.
  now rewrite He.
Qed.

(** X4. A call that misses the cache first makes its output directory, and
    fails with the error of [os.makedirs] when that fails, the state being
    left as it was.  With the directory in place, a payload that cannot be
    decoded makes the call raise [RetryError] carrying the decoder's message;
    nothing is fitted, cached or written. *)
Theorem undecodable_payload_raises e old_b64 new_b64 dir s ex :
  TTLCache.contains (clock e) (mask_cache s) (cache_key old_b64 new_b64) = false ->
  (makedirs e dir = Raise ex ->
   detect_illegal_construction e old_b64 new_b64 dir s = (Raise ex, s)) /\
  (makedirs e dir = Return tt ->
   (decode_once old_b64 = Raise ex \/
    (exists img, decode_once old_b64 = Return img) /\
    decode_once new_b64 = Raise ex) ->
   detect_illegal_construction e old_b64 new_b64 dir s =
     (Raise (Exn RetryError (exn_msg ex)),
      State (mask_cache s) (fit_calls s) (written s) (dirs s ++ [dir]))).
Proof.
  intros Hmiss. rewrite (detect_miss _ _ _ _ _ Hmiss). unfold compute. split.
  - now intros ->.
  - intros -> Hfail. unfold decode_and_resize.
    destruct Hfail as [Hold|[[img Hold] Hnew]].
    + now rewrite (decode_image_failure _ Hold).
    + rewrite (decode_image_success _ Hold); simpl.
      now rewrite (decode_image_failure _ Hnew).
Qed.

End Deltas.

Lemma index_deltas_range_witness :
  exists d,
    index_deltas (ext := Miniature.externals) Miniature.blank (Miniature.changed 2) =
      Return d /\
    Forall (fun x => -2 <= x <= 2) (Array.data (ndvi_diff d)) /\
    Forall (fun x => -2 <= x <= 2) (Array.data (ndbi_diff d)).
Proof.
  eexists. split; [reflexivity|].
  apply (@index_deltas_range Miniature.externals Miniature.blank
           (Miniature.changed 2) Miniature.blank (Miniature.changed 2));
    try reflexivity;
    unfold nonneg_pixels; simpl; repeat constructor; discriminate.
Defined.

Lemma too_few_bands_raises_witness :
  after_alignment (ext := Miniature.externals) (Miniature.at_time 0) "k" "out"
    Miniature.rgba Miniature.rgba initial_state =
    (Raise (Exn IndexError "index is out of bounds for axis 2"), initial_state).
Proof.
  apply (@too_few_bands_raises Miniature.externals (Miniature.at_time 0) "k" "out"
           Miniature.rgba Miniature.rgba Miniature.rgba Miniature.rgba);
    try reflexivity.
  right. simpl. lia.
Defined.

Lemma undecodable_payload_raises_witness :
  Miniature.detect (Miniature.at_time 0) "R" "x" "" initial_state =
    (Raise (Exn OSError "[Errno 2] No such file or directory: ''"), initial_state) /\
  Miniature.detect (Miniature.at_time 0) "R" "x" "out" initial_state =
    (Raise (Exn RetryError "Failed to decode image"),
     State (mask_cache initial_state) 0 [] ["out"%string]).
Proof.
  split.
  - apply (proj1 (@undecodable_payload_raises Miniature.externals
                    (Miniature.at_time 0) "R" "x" "" initial_state
                    (Exn OSError "[Errno 2] No such file or directory: ''") eq_refl)).
    reflexivity.
  - apply (proj2 (@undecodable_payload_raises Miniature.externals
                    (Miniature.at_time 0) "R" "x" "out" initial_state
                    (Exn DetectionError "Failed to decode image") eq_refl)).
    + reflexivity.
    + right. split; [now exists Miniature.rgb|reflexivity].
Defined.

(* ------------------------------------------------------------------ *)
(** ** What the alignment can return *)

Section Warp.

Context {ext : Externals}.

(** Line 54 passes [(img1.shape[1], img1.shape)] as the output size, a pair
    whose second entry is a tuple: [cv2.warpPerspective] takes no such
    size. *)
Hypothesis dsize_rejected : forall img M size,
  exists ex, warpPerspective img M size = Raise ex.

(** X22. [align_images] never hands on a warped raster: whenever it returns,
    the two feature extractions and the matching have returned, there were
    fewer than four matches, and the raster returned is the target as it
    was given.  With four matches or more it raises. *)
Theorem align_images_returns_target img1 img2 img :
  align_images img1 img2 = Return img ->
  img = img2 /\
  exists kp1 des1 kp2 des2 ms,
    detectAndCompute img1 = Return (kp1, des1) /\
    detectAndCompute img2 = Return (kp2, des2) /\
    bf_match des1 des2 = Return ms /\ (length ms < 4)%nat.
Proof.
  unfold align_images.
  destruct (detectAndCompute img1) as [[kp1 des1]|?] eqn:H1; simpl; [|discriminate].
  destruct (detectAndCompute img2) as [[kp2 des2]|?] eqn:H2; simpl; [|discriminate].
  destruct (bf_match des1 des2) as [ms|?] eqn:H3; simpl; [|discriminate].
  rewrite sorted_by_distance_length.
  destruct (length ms <? 4)%nat eqn:Hlen.
  - intros [= <-]. split; [reflexivity|].
    exists kp1, des1, kp2, des2, ms. apply Nat.ltb_lt in Hlen. now repeat split.
  - destruct (comprehension _ _) as [src|?]; simpl; [|discriminate].
    destruct (comprehension _ _) as [dst|?]; simpl; [|discriminate].
    destruct (findHomography src dst) as [M|?]; simpl; [|discriminate].
    destruct (dsize_rejected img2 M (img_cols img1, img_shape img1)) as [ex ->].
    discriminate.
Qed.

End Warp.

Lemma align_images_returns_target_witness :
  align_images (ext := Miniature.externals) Miniature.rgb Miniature.rgba =
    Return Miniature.rgba /\
  exists ms,
    bf_match (Externals := Miniature.externals) tt tt = Return ms /\
    (length ms < 4)%nat.
Proof.
  assert (Hrun : align_images (ext := Miniature.externals) Miniature.rgb
                   Miniature.rgba = Return Miniature.rgba) by reflexivity.
  destruct (@align_images_returns_target Miniature.externals
              (fun _ _ _ => ex_intro _ _ eq_refl)
              Miniature.rgb Miniature.rgba Miniature.rgba Hrun)
    as [_ [kp1 [des1 [kp2 [des2 [ms [_ [_ [Hm Hlen]]]]]]]]].
  split; [exact Hrun|]. exists ms. destruct des1, des2. now split.
Defined.

(* ------------------------------------------------------------------ *)
(** ** What the cache holds *)

Section CacheContents.

Context {ext : Externals}.

(** X5. When every polygon OpenCV hands over has one coordinate row per
    point, no call ever returns a result with [detected = True] and the
    cache stays empty: a contour that passes the area filter makes line 130
    raise [IndexError]. *)
Theorem never_detected_on_opencv_layout
    (layout : forall m cs, findContours m = Return cs -> Forall opencv_layout cs)
    s e old_b64 new_b64 dir :
  reachable s ->
  TTLCache.links (mask_cache s) = [] /\
  forall r, fst (detect_illegal_construction e old_b64 new_b64 dir s) = Return r ->
            r = NotDetected.
Proof.
  intros Hs. split; [now apply layout_empty_cache|].
  intros r Hr.
  destruct (detect_returns e old_b64 new_b64 dir Hs Hr) as [H|Hc]; [exact H|].
  destruct (layout_never_computed layout Hc).
Qed.

Lemma detect_cache_step e old_b64 new_b64 dir s :
  let c := mask_cache s in
  let c' := mask_cache (snd (detect_illegal_construction e old_b64 new_b64 dir s)) in
  c' = c \/
  c' = snd (TTLCache.getitem (clock_getitem e) c (cache_key old_b64 new_b64)) \/
  exists r, c' = TTLCache.setitem (clock_store e) c (cache_key old_b64 new_b64) r.
Proof.
  unfold detect_illegal_construction.
  destruct (TTLCache.contains _ _ _).
  - destruct (TTLCache.getitem _ _ _) as [o c1]. right. now left.
  - destruct (compute_cases e (cache_key old_b64 new_b64) dir old_b64 new_b64 s)
      as [[Hc _]|[r [_ [_ [Hc _]]]]]; [now left|].
    right. right. now exists r.
Qed.

(** X7. In every state the process can reach, the cache configured at
    line 20 holds at most 100 results with a time to live of 3600 s, and at
    most one per fingerprint. *)
Theorem cache_stays_within_capacity s :
  reachable s ->
  (length (TTLCache.links (mask_cache s)) <= 100)%nat /\
  NoDup (map (@TTLCache.key result) (TTLCache.links (mask_cache s))) /\
  TTLCache.maxsize (mask_cache s) = 100%nat /\
  TTLCache.ttl (mask_cache s) = 3600%Z.
Proof.
  induction 1 as [|s e old_b64 new_b64 dir _ IH].
  - simpl. repeat split; [lia|constructor].
  - destruct IH as [Hlen [Hnd [Hmax Httl]]].
    destruct (detect_cache_step e old_b64 new_b64 dir s) as [->|[->|[r ->]]].
    + now repeat split.
    + destruct (getitem_cache (clock_getitem e) (mask_cache s)
                  (cache_key old_b64 new_b64)) as [Hm [Ht [_ [Hl Hn]]]].
      repeat split; [lia|now apply Hn|congruence|congruence].
    + destruct (setitem_links (clock_store e) (mask_cache s)
                  (cache_key old_b64 new_b64) r)
        as [Hm [Ht [older [Hl [_ [Hno [Hn Hlt]]]]]]].
      rewrite Hl, Hm, Ht. repeat split; auto.
      * rewrite length_app; simpl.
        assert (length older < TTLCache.maxsize (mask_cache s))%nat
          by (apply Hlt; lia).
        lia.
      * rewrite map_app; simpl. apply snoc_nodup; auto.
Qed.

(** Decoding returns what the codec made of the payload. *)
Lemma decode_image_returns image_b64 img :
  decode_image image_b64 = Return img ->
  exists bytes, imdecode bytes = Return (Some img).
Proof.
  intros H.
  destruct (decode_once image_b64) as [img'|ex] eqn:Hd.
  - rewrite (decode_image_success _ Hd) in H. inversion H; subst img'.
    unfold decode_once in Hd.
    destruct (b64decode image_b64) as [bytes|?]; simpl in Hd; [|discriminate].
    destruct (imdecode bytes) as [[i|]|?] eqn:Hi; try discriminate.
    inversion Hd; subst. now exists bytes.
  - rewrite (decode_image_failure _ Hd) in H. discriminate.
Qed.

Lemma align_images_channels
    (warp : forall img M size img',
       warpPerspective img M size = Return img' ->
       length (img_bands img') = length (img_bands img))
    img1 img2 img :
  align_images img1 img2 = Return img ->
  length (img_bands img) = length (img_bands img2).
Proof.
  unfold align_images.
  destruct (detectAndCompute img1) as [[kp1 des1]|?]; simpl; [|discriminate].
  destruct (detectAndCompute img2) as [[kp2 des2]|?]; simpl; [|discriminate].
  destruct (bf_match des1 des2) as [ms|?]; simpl; [|discriminate].
  destruct (length (sorted_by_distance ms) <? 4)%nat; [now intros [= <-]|].
  destruct (comprehension _ _) as [src|?]; simpl; [|discriminate].
  destruct (comprehension _ _) as [dst|?]; simpl; [|discriminate].
  destruct (findHomography src dst) as [M|?]; simpl; [|discriminate].
  apply warp.
Qed.

Hypothesis channels : opencv_channels.

(** With rasters of four channels at most the pipeline never comes back: it
    raises before the scorer, and leaves the cache, the scorer count and the
    files as they were. *)
Lemma compute_never_returns e key dir old_b64 new_b64 s :
  let run := compute e key dir old_b64 new_b64 s in
  (exists ex, fst run = Raise ex) /\
  mask_cache (snd run) = mask_cache s /\
  fit_calls (snd run) = fit_calls s /\
  written (snd run) = written s /\
  (forall old_img new_img0 new_img old_blur new_blur,
     makedirs e dir = Return tt ->
     decode_and_resize old_b64 new_b64 = Return (old_img, new_img0) ->
     align_images old_img new_img0 = Return new_img ->
     GaussianBlur old_img = Return old_blur ->
     GaussianBlur new_img = Return new_blur ->
     fst run = Raise (Exn IndexError "index is out of bounds for axis 2")).
Proof.
  unfold compute.
  destruct (makedirs e dir) as [[]|ex] eqn:Hmk; simpl.
  2: { split; [now exists ex|]. repeat split; auto. discriminate. }
  destruct (decode_and_resize old_b64 new_b64) as [[o n0]|ex] eqn:Hdec; simpl.
  2: { split; [now exists ex|]. repeat split; auto. discriminate. }
  destruct (align_images o n0) as [n|ex] eqn:Hal; simpl.
  2: { split; [now exists ex|]. split; [reflexivity|]. split; [reflexivity|].
       split; [reflexivity|]. intros oi ni0 ni ob nb _ [= <- <-]. congruence. }
  assert (Ho : (length (img_bands o) <= 4)%nat).
  { revert Hdec. unfold decode_and_resize, resize_images.
    destruct (decode_image old_b64) as [o1|?] eqn:Ho1; simpl; [|discriminate].
    destruct (decode_image new_b64) as [n1|?]; simpl; [|discriminate].
    destruct (resize o1 (512, 512)%nat) as [o'|?] eqn:Hr; simpl; [|discriminate].
    destruct (resize n1 (512, 512)%nat) as [n'|?]; simpl; [|discriminate].
    intros [= <- <-].
    apply decode_image_returns in Ho1 as [bytes Hb].
    apply (imdecode_channels channels) in Hb.
    apply (resize_channels channels) in Hr. lia. }
  unfold after_alignment.
  destruct (GaussianBlur o) as [ob|ex] eqn:Hbo.
  2: { unfold index_deltas. rewrite Hbo; simpl.
       split; [now exists ex|]. split; [reflexivity|]. split; [reflexivity|].
       split; [reflexivity|]. intros oi ni0 ni ob nb _ [= <- <-]. congruence. }
  destruct (GaussianBlur n) as [nb|ex] eqn:Hbn.
  2: { unfold index_deltas. rewrite Hbo, Hbn; simpl.
       split; [now exists ex|]. split; [reflexivity|]. split; [reflexivity|].
       split; [reflexivity|]. intros oi ni0 ni ob' nb _ [= <- <-]. congruence. }
  assert (Hob : (length (img_bands ob) < 5)%nat).
  { apply (GaussianBlur_channels channels) in Hbo. lia. }
  rewrite (index_deltas_few_bands _ _ Hbo Hbn (or_introl Hob)); simpl.
  split; [eexists; reflexivity|]. repeat split; auto.
Qed.

(** X21. [cv2.imdecode] yields rasters of four channels at most, and
    [resize], [warpPerspective] and [GaussianBlur] keep the number of
    channels; line 85 reads the fifth.  So no call of the engine ever
    returns: every call raises, the scorer is never fitted, no mask is ever
    written and the cache stays empty.  A call whose payloads decode, whose
    alignment comes back and whose rasters are denoised raises [IndexError]
    at the band extraction. *)
Theorem detect_never_returns s e old_b64 new_b64 dir :
  reachable s ->
  let run := detect_illegal_construction e old_b64 new_b64 dir s in
  (TTLCache.links (mask_cache s) = [] /\ fit_calls s = 0%nat /\ written s = []) /\
  (exists ex, fst run = Raise ex) /\
  (forall old_img new_img0 new_img old_blur new_blur,
     makedirs e dir = Return tt ->
     decode_and_resize old_b64 new_b64 = Return (old_img, new_img0) ->
     align_images old_img new_img0 = Return new_img ->
     GaussianBlur old_img = Return old_blur ->
     GaussianBlur new_img = Return new_blur ->
     fst run = Raise (Exn IndexError "index is out of bounds for axis 2")).
Proof.
  intros Hs run.
  assert (Hinv : TTLCache.links (mask_cache s) = [] /\ fit_calls s = 0%nat /\
                 written s = []).
  { clear run. induction Hs as [|s e0 o n d0 _ [Hl [Hf Hw]]]; [now repeat split|].
    rewrite (detect_miss _ _ _ _ _ (contains_empty _ _ _ Hl)).
    destruct (compute_never_returns e0 (cache_key o n) d0 o n s)
      as [_ [Hc [Hf' [Hw' _]]]].
    rewrite Hc, Hf', Hw'. now repeat split. }
  split; [exact Hinv|]. destruct Hinv as [Hl _].
  unfold run. rewrite (detect_miss _ _ _ _ _ (contains_empty _ _ _ Hl)).
  destruct (compute_never_returns e (cache_key old_b64 new_b64) dir old_b64 new_b64 s)
    as [Hex [_ [_ [_ Hidx]]]].
  split; [exact Hex|exact Hidx].
Qed.

End CacheContents.

Lemma miniature_channels : opencv_channels (ext := Miniature.externals).
Proof.
  split.
  - intros bytes img. simpl. unfold Miniature.decode_bytes.
    destruct bytes as [|b bytes]; [discriminate|].
    destruct (Z.eq_dec b 82) as [->|H82]; [intros [= <-]; simpl; lia|].
    destruct (Z.eq_dec b 65) as [->|H65]; [intros [= <-]; simpl; lia|].
    intros H. exfalso.
    destruct b as [|p|p]; try discriminate.
    do 7 (destruct p as [p|p|]; try discriminate); congruence.
  - intros img size img'. simpl. intros [= <-]. simpl. apply length_map.
  - intros img img'. simpl. now intros [= <-].
  - intros img M size img'. simpl. discriminate.
Qed.

Lemma never_detected_on_opencv_layout_witness :
  let run := Miniature.detect (Miniature.at_time 0) "R" "A" "out" initial_state in
  TTLCache.links (mask_cache (snd run)) = [] /\
  forall r, fst (Miniature.detect (Miniature.at_time 1) "A" "R" "out" (snd run)) =
              Return r -> r = NotDetected.
Proof.
  intros run.
  assert (Hreach : reachable (ext := Miniature.externals) (snd run))
    by (apply reachable_call; constructor).
  exact (@never_detected_on_opencv_layout Miniature.externals miniature_layout
           (snd run) (Miniature.at_time 1) "A" "R" "out" Hreach).
Defined.

Lemma cache_stays_within_capacity_witness :
  let s := snd (Miniature.detect (Miniature.at_time 0) "R" "A" "out" initial_state) in
  (length (TTLCache.links (mask_cache s)) <= 100)%nat /\
  NoDup (map (@TTLCache.key result) (TTLCache.links (mask_cache s))) /\
  TTLCache.maxsize (mask_cache s) = 100%nat /\
  TTLCache.ttl (mask_cache s) = 3600%Z.
Proof.
  intros s.
  apply (@cache_stays_within_capacity Miniature.externals s).
  apply reachable_call. constructor.
Defined.

Lemma detect_never_returns_witness :
  let run := Miniature.detect (Miniature.at_time 0) "R" "A" "out" initial_state in
  (exists ex, fst run = Raise ex) /\
  fit_calls (snd run) = 0%nat /\ written (snd run) = [].
Proof.
  intros run.
  destruct (@detect_never_returns Miniature.externals miniature_channels
              initial_state (Miniature.at_time 0) "R" "A" "out")
    as [_ [Hex _]]; [constructor|].
  destruct (@detect_never_returns Miniature.externals miniature_channels
              (snd run) (Miniature.at_time 1) "R" "A" "out")
    as [[_ [Hf Hw]] _]; [apply reachable_call; constructor|].
  split; [exact Hex|]. split; [exact Hf|exact Hw].
Defined.

(* ------------------------------------------------------------------ *)
(** ** Geocoding *)

Lemma interpolation_monotone (lo hi c c' : Q) :
  lo <= hi -> c <= c' ->
  lo + (c / 512) * (hi - lo) <= lo + (c' / 512) * (hi - lo).
Proof.
  intros Hbox Hc.
  assert (Hd : 0 <= (hi - lo) / 512)
    by (apply Qle_shift_div_l; [reflexivity|lra]).
  assert (Hdiff : lo + (c' / 512) * (hi - lo) - (lo + (c / 512) * (hi - lo))
                  == (c' - c) * ((hi - lo) / 512)) by field.
  assert (0 <= (c' - c) * ((hi - lo) / 512))
    by (apply Qmult_le_0_compat; lra).
  lra.
Qed.

(** X13. A missing or short pixel box falls back to the tile centre
    (256, 256), which [_px_to_ll] sends to the middle of the geographic
    box. *)
Theorem fallback_centre_is_box_middle (box : Geo.bbox) (bbox : list Q) :
  (length bbox < 4)%nat ->
  Geo._cxcy bbox = (256, 256) /\
  fst (Geo._px_to_ll box 256 256) == (Geo.miny box + Geo.maxy box) / 2 /\
  snd (Geo._px_to_ll box 256 256) == (Geo.minx box + Geo.maxx box) / 2.
Proof.
  intros Hlen. split.
  - destruct bbox as [|a [|b [|c [|d rest]]]]; simpl in *; try reflexivity. lia.
  - destruct box as [x0 y0 x1 y1]; simpl. split; field.
Qed.

Lemma fallback_centre_is_box_middle_witness :
  Geo._cxcy [] = (256, 256) /\
  fst (Geo._px_to_ll Geo.app_default 256 256) ==
    (Geo.miny Geo.app_default + Geo.maxy Geo.app_default) / 2.
Proof.
  destruct (@fallback_centre_is_box_middle Geo.app_default []) as [Hc [Hlat _]].
  - simpl. lia.
  - split; [exact Hc|exact Hlat].
Defined.

(** X15. For a geographic box with ordered corners the mapping keeps the
    order of the pixel coordinates on each axis: a pixel further down the
    rows is never sent to a smaller latitude, a pixel further along the
    columns never to a smaller longitude. *)
Theorem px_to_ll_order (box : Geo.bbox) (cx cy cx' cy' : Q) :
  Geo.minx box <= Geo.maxx box -> Geo.miny box <= Geo.maxy box ->
  (cy <= cy' -> fst (Geo._px_to_ll box cx cy) <= fst (Geo._px_to_ll box cx' cy')) /\
  (cx <= cx' -> snd (Geo._px_to_ll box cx cy) <= snd (Geo._px_to_ll box cx' cy')).
Proof.
  intros Hx Hy. destruct box as [x0 y0 x1 y1]; simpl in *.
  split; intros Hc; now apply interpolation_monotone.
Qed.

Lemma px_to_ll_order_witness :
  fst (Geo._px_to_ll Geo.app_default 10 20) <=
  fst (Geo._px_to_ll Geo.app_default 300 21) /\
  snd (Geo._px_to_ll Geo.app_default 10 20) <=
  snd (Geo._px_to_ll Geo.app_default 11 5).
Proof.
  destruct (@px_to_ll_order Geo.app_default 10 20 300 21) as [Hlat _];
    [apply Qle_bool_iff; reflexivity|apply Qle_bool_iff; reflexivity|].
  destruct (@px_to_ll_order Geo.app_default 10 20 11 5) as [_ Hlng];
    [apply Qle_bool_iff; reflexivity|apply Qle_bool_iff; reflexivity|].
  split; [apply Hlat|apply Hlng]; apply Qle_bool_iff; reflexivity.
Defined.

(* ------------------------------------------------------------------ *)
(** ** Picking a port *)

Lemma pick_from_picked bind : forall tries port p,
  App.pick_from bind tries port = App.Picked p <->
  (port <= p < port + Z.of_nat tries)%Z /\
  bind p = App.Bound /\
  (forall q, (port <= q < p)%Z -> bind q = App.AddressInUse).
Proof.
  induction tries as [|n IH]; intros port p.
  - simpl. split; [discriminate|]. intros [H _]. lia.
  - cbn [App.pick_from]. destruct (bind port) eqn:Hb.
    + split.
      * intros [= <-]. split; [lia|]. split; [exact Hb|]. intros q Hq. lia.
      * intros [Hr [Hp Hq]].
        destruct (Z.eq_dec p port) as [->|Hne]; [reflexivity|].
        rewrite (Hq port) in Hb by lia. discriminate.
    + rewrite IH. split.
      * intros [Hr [Hp Hq]]. split; [lia|]. split; [exact Hp|].
        intros q Hq'. destruct (Z.eq_dec q port) as [->|Hne]; [exact Hb|].
        apply Hq. lia.
      * intros [Hr [Hp Hq]].
        assert (p <> port) by (intros ->; congruence).
        split; [lia|]. split; [exact Hp|]. intros q Hq'. apply Hq. lia.
    + split; [discriminate|]. intros [Hr [Hp Hq]].
      destruct (Z.eq_dec p port) as [->|Hne]; [congruence|].
      rewrite (Hq port) in Hb by lia. discriminate.
Qed.

Lemma pick_from_none bind : forall tries port,
  App.pick_from bind tries port = App.NoFreePort <->
  (forall q, (port <= q < port + Z.of_nat tries)%Z -> bind q = App.AddressInUse).
Proof.
  induction tries as [|n IH]; intros port.
  - simpl. split; [intros _ q Hq; lia|reflexivity].
  - cbn [App.pick_from]. destruct (bind port) eqn:Hb.
    + split; [discriminate|]. intros H. rewrite (H port) in Hb by lia. discriminate.
    + rewrite IH. split; intros H q Hq.
      * destruct (Z.eq_dec q port) as [->|Hne]; [exact Hb|]. apply H. lia.
      * apply H. lia.
    + split; [discriminate|]. intros H. rewrite (H port) in Hb by lia. discriminate.
Qed.

(** X16. [_pick_free_port] returns the lowest port that binds among the
    [max_tries] ports from the starting one, provided every port below it is
    in use; it reports that no port is free exactly when all [max_tries]
    ports are in use. *)
Theorem pick_free_port_is_lowest bind PORT start max_tries :
  let first := match PORT with Some p => p | None => start end in
  (forall p,
     App._pick_free_port bind PORT start max_tries = App.Picked p <->
     (first <= p < first + Z.of_nat max_tries)%Z /\
     bind p = App.Bound /\
     (forall q, (first <= q < p)%Z -> bind q = App.AddressInUse)) /\
  (App._pick_free_port bind PORT start max_tries = App.NoFreePort <->
   forall q, (first <= q < first + Z.of_nat max_tries)%Z ->
             bind q = App.AddressInUse).
Proof.
  intros first. unfold App._pick_free_port. fold first.
  split; [intros p; apply pick_from_picked|apply pick_from_none].
Qed.

Lemma pick_free_port_is_lowest_witness :
  App._pick_free_port
    (fun p => if (p <? 5002)%Z then App.AddressInUse else App.Bound)
    None 5000 50 = App.Picked 5002.
Proof.
  destruct (@pick_free_port_is_lowest
              (fun p => if (p <? 5002)%Z then App.AddressInUse else App.Bound)
              None 5000%Z 50%nat) as [Hpick _].
  apply Hpick. repeat split; try lia.
  intros q Hq. destruct (q <? 5002)%Z eqn:E; [reflexivity|].
  apply Z.ltb_ge in E. lia.
Defined.

(* ------------------------------------------------------------------ *)
(** ** Detections kept in memory *)

Lemma str_injective n m : App.str n = App.str m -> n = m.
Proof.
  unfold App.str. intros H.
  apply DecimalNat.Unsigned.to_uint_inj.
  pose proof (NilEmpty.usu (Nat.to_uint n)) as Hn.
  rewrite H, NilEmpty.usu in Hn. now inversion Hn.
Qed.

Lemma map_nodup_injective (A B : Type) (f : A -> B)
    (Hf : forall x y, f x = f y -> x = y) :
  forall l, NoDup l -> NoDup (map f l).
Proof.
  induction 1 as [|x l Hx _ IH]; simpl; constructor; [|exact IH].
  intros Hin. apply in_map_iff in Hin as [y [Hy Hin]].
  apply Hf in Hy. now subst.
Qed.

(** In a list without repetition every address is its own newest entry. *)
Lemma newest_rank_nodup : forall dets,
  NoDup dets ->
  map (fun a => App.newest_rank a dets) dets = rev (seq 1 (length dets)).
Proof.
  induction dets as [|a rest IH]; intros Hnd; [reflexivity|].
  inversion Hnd as [|? ? Hnotin Hrest]; subst.
  cbn [map App.newest_rank length]. rewrite Nat.eqb_refl.
  rewrite seq_S, rev_app_distr. cbn [rev app Nat.add]. f_equal.
  rewrite <- (IH Hrest). apply map_ext_in. intros a' Hin.
  destruct (Nat.eqb_spec a a') as [->|_]; [contradiction|reflexivity].
Qed.

Lemma pending_count (P : Type) (ds : list (App.doc P)) :
  Forall (fun d => App.status d = Some "pending"%string) ds ->
  filter (App.has_status "pending") ds = ds /\
  filter (App.has_status "resolved") ds = [].
Proof.
  induction 1 as [|d ds Hd _ [IH1 IH2]]; [now split|].
  assert (Hp : App.has_status "pending" d = true)
    by (unfold App.has_status; now rewrite Hd).
  assert (Hr : App.has_status "resolved" d = false)
    by (unfold App.has_status; now rewrite Hd).
  cbn [filter]. now rewrite Hp, Hr, IH1, IH2.
Qed.

Section Persist.

Variable P : Type.

(** What one call of [_persist] does to the memory. *)
Lemma persist_step (a : nat) (m : App.memory P) :
  App.detections (App._persist a m) = a :: App.detections m /\
  App.status (App.heap (App._persist a m) a) = Some "pending"%string /\
  App.id (App.heap (App._persist a m) a) =
    Some (App.str (S (length (App.detections m)))) /\
  (forall a', a' <> a -> App.heap (App._persist a m) a' = App.heap m a').
Proof.
  unfold App._persist, App.update; simpl. rewrite !Nat.eqb_refl; simpl.
  repeat split. intros a' Hne. apply Nat.eqb_neq in Hne. now rewrite Hne.
Qed.

Lemma persist_fold : forall (docs : list nat) (m0 : App.memory P),
  (forall a, In a (App.detections m0) ->
     App.status (App.heap m0 a) = Some "pending"%string /\
     App.id (App.heap m0 a) =
       Some (App.str (App.newest_rank a (App.detections m0)))) ->
  let m := fold_left (fun m a => App._persist a m) docs m0 in
  App.detections m = rev docs ++ App.detections m0 /\
  (forall a, In a (App.detections m) ->
     App.status (App.heap m a) = Some "pending"%string /\
     App.id (App.heap m a) =
       Some (App.str (App.newest_rank a (App.detections m)))).
Proof.
  induction docs as [|a docs IH]; intros m0 H0; [now split|].
  cbn [fold_left].
  destruct (persist_step a m0) as [Hd [Hs [Hi Hother]]].
  destruct (IH (App._persist a m0)) as [Hdets Hinv].
  - intros a' Hin. rewrite Hd in *. cbn [App.newest_rank].
    destruct (Nat.eqb_spec a a') as [<-|Hne].
    + split; [exact Hs|]. rewrite Hi. reflexivity.
    + destruct Hin as [Heq|Hin]; [contradiction|].
      rewrite Hother by congruence. now apply H0.
  - split; [|exact Hinv].
    rewrite Hdets, Hd. cbn [rev]. now rewrite <- app_assoc.
Qed.

(** X17. Without a database, the dictionaries [_persist] was given are
    listed newest first, one entry per call, and every one of them is
    pending: the dashboard counts all of them as pending alerts and none as
    resolved.  An entry shows as id the decimal rank of the newest entry of
    its dictionary, so a dictionary persisted twice is listed twice under
    the rank of the second call; when every call was given a dictionary of
    its own, the ids are the insertion ranks, newest first, and distinct. *)
Theorem persisted_detections_stay_pending
    (h : nat -> App.doc P) (docs : list nat) :
  let m := App.persist_all h docs in
  App.detections m = rev docs /\
  App.api_dashboard_stats (App.listed m) = (length docs, length docs, 0%nat) /\
  map (@App.id P) (App.listed m) =
    map (fun a => Some (App.str (App.newest_rank a (rev docs)))) (rev docs) /\
  (NoDup docs ->
   map (@App.id P) (App.listed m) =
     map (fun n => Some (App.str n)) (rev (seq 1 (length docs))) /\
   NoDup (map (@App.id P) (App.listed m))).
Proof.
  intros m.
  destruct (persist_fold docs (App.Memory h [])) as [Hdets Hinv];
    [intros a []|].
  fold (App.persist_all h docs) in Hdets, Hinv. fold m in Hdets, Hinv.
  rewrite app_nil_r in Hdets.
  assert (Hst : Forall (fun d => App.status d = Some "pending"%string) (App.listed m)).
  { apply Forall_forall. intros d Hd. unfold App.listed in Hd.
    apply in_map_iff in Hd as [a [<- Ha]]. now apply Hinv. }
  assert (Hids : map (@App.id P) (App.listed m) =
                 map (fun a => Some (App.str (App.newest_rank a (rev docs)))) (rev docs)).
  { unfold App.listed. rewrite map_map, <- Hdets. apply map_ext_in.
    intros a Ha. now apply Hinv. }
  assert (Hlen : length (App.listed m) = length docs).
  { unfold App.listed. now rewrite length_map, Hdets, length_rev. }
  destruct (pending_count Hst) as [Hp Hr].
  split; [exact Hdets|]. split; [|split; [exact Hids|]].
  - unfold App.api_dashboard_stats. now rewrite Hp, Hr, Hlen.
  - intros Hnd.
    assert (Hranks : map (@App.id P) (App.listed m) =
                     map (fun n => Some (App.str n)) (rev (seq 1 (length docs)))).
    { rewrite Hids.
      rewrite <- (length_rev docs), <- newest_rank_nodup
        by now apply NoDup_rev.
      now rewrite map_map. }
    split; [exact Hranks|]. rewrite Hranks. apply map_nodup_injective.
    + intros n n' [= H]. now apply str_injective.
    + apply NoDup_rev, seq_NoDup.
Qed.

End Persist.

Lemma persisted_detections_stay_pending_witness :
  let h := fun a : nat => App.Doc a None None in
  App.api_dashboard_stats (App.listed (App.persist_all h [7; 8]%nat)) =
    (2%nat, 2%nat, 0%nat) /\
  map (@App.id nat) (App.listed (App.persist_all h [7; 8]%nat)) =
    [Some "2"%string; Some "1"%string] /\
  map (@App.id nat) (App.listed (App.persist_all h [7; 7]%nat)) =
    [Some "2"%string; Some "2"%string].
Proof.
  intros h.
  destruct (@persisted_detections_stay_pending nat h [7; 8]%nat)
    as [_ [Hstats [_ Hranks]]].
  destruct (@persisted_detections_stay_pending nat h [7; 7]%nat)
    as [_ [_ [Hids _]]].
  split; [exact Hstats|]. split; [|exact Hids].
  apply Hranks. repeat constructor; simpl; intuition discriminate.
Defined.

(* ------------------------------------------------------------------ *)
(** ** The scheduled fetch *)

(** X18. [auto_fetch_images] always returns [True] or [False] after one to
    three calls of [manual_fetch].  It returns [True] exactly when, in its
    last attempt, both the fetch and the e-mail went through; every earlier
    attempt failed in one of the two, and the fetch was run again after
    each, also when only the e-mail had failed; [False] comes after three
    calls. *)
Theorem auto_fetch_attempts (manual_fetch send_email : nat -> bool) :
  let '(res, calls) := Scheduler.auto_fetch_images manual_fetch send_email in
  (res = Some true \/ res = Some false) /\
  (1 <= calls <= 3)%nat /\
  (res = Some true <->
   manual_fetch (calls - 1)%nat && send_email (calls - 1)%nat = true) /\
  (forall j, (j < calls - 1)%nat -> manual_fetch j && send_email j = false) /\
  (res = Some false -> calls = 3%nat).
Proof.
  unfold Scheduler.auto_fetch_images, Scheduler.max_attempts; simpl.
  destruct (manual_fetch 0%nat && send_email 0%nat) eqn:E0; simpl;
    [split; [auto|split; [lia|split; [tauto|split; [intros j Hj; lia|discriminate]]]]|].
  destruct (manual_fetch 1%nat && send_email 1%nat) eqn:E1; simpl;
    [split; [auto|split; [lia|split; [tauto|split; [|discriminate]]]];
     intros j Hj; assert (j = 0%nat) as -> by lia; exact E0|].
  assert (Hearlier : forall j, (j < 2)%nat ->
            manual_fetch j && send_email j = false).
  { intros j Hj. destruct j as [|[|j]]; auto. lia. }
  destruct (manual_fetch 2%nat && send_email 2%nat) eqn:E2; simpl.
  - split; [auto|]. split; [lia|]. split; [tauto|]. split; [exact Hearlier|].
    discriminate.
  - split; [auto|]. split; [lia|]. split; [|split; [exact Hearlier|reflexivity]].
    split; [discriminate|]. try rewrite E2. discriminate.
Qed.

(* ------------------------------------------------------------------ *)
(** ** The grievance leaderboard *)

Section LeaderboardLemmas.

Variable lower : string -> string.

Lemma insert_by_count_perm x : forall xs,
  Permutation (x :: xs) (App.insert_by_count x xs).
Proof.
  induction xs as [|y ys IH]; simpl; [reflexivity|].
  destruct (App.e_count x <? App.e_count y)%nat; [|reflexivity].
  rewrite perm_swap. now constructor.
Qed.

Lemma sorted_by_count_perm : forall xs, Permutation xs (App.sorted_by_count xs).
Proof.
  induction xs as [|x xs IH]; simpl; [constructor|].
  rewrite <- insert_by_count_perm. now constructor.
Qed.

Lemma insert_by_count_sorted x : forall xs,
  StronglySorted App.falling xs -> StronglySorted App.falling (App.insert_by_count x xs).
Proof.
  induction xs as [|y ys IH]; simpl; intros Hs.
  - repeat constructor.
  - inversion Hs as [|? ? Hys Hy]; subst.
    destruct (App.e_count x <? App.e_count y)%nat eqn:E.
    + apply Nat.ltb_lt in E. constructor; [now apply IH|].
      apply Forall_forall. intros z Hz.
      apply (Permutation_in _ (Permutation_sym (insert_by_count_perm x ys))) in Hz.
      destruct Hz as [<-|Hz]; [unfold App.falling; lia|].
      rewrite Forall_forall in Hy. now apply Hy.
    + apply Nat.ltb_ge in E. constructor; [exact Hs|].
      constructor; [exact E|].
      apply Forall_forall. intros z Hz. rewrite Forall_forall in Hy.
      specialize (Hy z Hz). unfold App.falling in *. lia.
Qed.

Lemma sorted_by_count_sorted : forall xs,
  StronglySorted App.falling (App.sorted_by_count xs).
Proof.
  induction xs as [|x xs IH]; simpl; [constructor|].
  now apply insert_by_count_sorted.
Qed.

Lemma strongly_sorted_app (A : Type) (R : A -> A -> Prop) : forall l1 l2,
  StronglySorted R (l1 ++ l2) ->
  StronglySorted R l1 /\ forall a b, In a l1 -> In b l2 -> R a b.
Proof.
  induction l1 as [|x l1 IH]; simpl; intros l2 H.
  - split; [constructor|]. intros a b [].
  - inversion H as [|? ? Hs Hx]; subst.
    destruct (IH _ Hs) as [Hs1 Hcross].
    rewrite Forall_forall in Hx. split.
    + constructor; [exact Hs1|]. apply Forall_forall. intros z Hz.
      apply Hx, in_or_app. now left.
    + intros a b [<-|Ha] Hb; [|now apply Hcross].
      apply Hx, in_or_app. now right.
Qed.

Lemma times_cons k g processed key :
  (App.key_of lower) g = Return key ->
  (App.times lower) k (g :: processed) =
    ((if String.eqb key k then 1 else 0) + (App.times lower) k processed)%nat.
Proof.
  intros Hk. unfold App.times; simpl. unfold App.counts_for at 1. rewrite Hk.
  now destruct (String.eqb key k).
Qed.

Lemma times_absent k processed items :
  (App.tallied lower) processed items ->
  existsb (App.has_email k) items = false ->
  (App.times lower) k processed = 0%nat.
Proof.
  intros [_ [_ Hall]] Hex. unfold App.times.
  destruct (filter ((App.counts_for lower) k) processed) as [|g rest] eqn:Hf; [reflexivity|].
  exfalso.
  assert (Hin : In g (filter ((App.counts_for lower) k) processed)) by (rewrite Hf; now left).
  apply filter_In in Hin as [Hin Hc]. unfold App.counts_for in Hc.
  destruct ((App.key_of lower) g) as [k'|ex] eqn:Hk; [|discriminate].
  apply String.eqb_eq in Hc. subst k'.
  destruct (Hall g k Hin Hk) as [it [Hit He]].
  assert (existsb (App.has_email k) items = true).
  { apply existsb_exists. exists it. split; [exact Hit|].
    unfold App.has_email. rewrite He. apply String.eqb_refl. }
  congruence.
Qed.

Lemma count_up_tallied g key name processed items :
  (App.key_of lower) g = Return key ->
  (App.tallied lower) processed items ->
  (App.tallied lower) (g :: processed) (App.count_up key name items).
Proof.
  intros Hk Ht. pose proof Ht as [Hnd [Hcount Hall]]. unfold App.count_up.
  destruct (existsb (App.has_email key) items) eqn:Hex.
  - assert (Hemails : map App.e_email
              (map (fun it => if App.has_email key it
                              then App.Entry (App.e_name it) (App.e_email it)
                                     (S (App.e_count it))
                              else it) items) = map App.e_email items).
    { rewrite map_map. apply map_ext. intros it.
      now destruct (App.has_email key it). }
    split; [now rewrite Hemails|]. split.
    + intros it' Hin. apply in_map_iff in Hin as [it [<- Hin]].
      destruct (Hcount it Hin) as [Hc H1]. rewrite times_cons with (key := key) by exact Hk.
      unfold App.has_email. destruct (String.eqb (App.e_email it) key) eqn:E; simpl.
      * apply String.eqb_eq in E. rewrite E in Hc |- *. rewrite String.eqb_refl. lia.
      * rewrite String.eqb_sym, E. simpl. lia.
    + intros g' k [<-|Hin] Hk'.
      * assert (k = key) as -> by congruence.
        apply existsb_exists in Hex as [it [Hit He]].
        unfold App.has_email in He. apply String.eqb_eq in He.
        exists (App.Entry (App.e_name it) (App.e_email it) (S (App.e_count it))).
        split; [|exact He]. apply in_map_iff. exists it. split; [|exact Hit].
        unfold App.has_email. rewrite He. now rewrite String.eqb_refl.
      * destruct (Hall g' k Hin Hk') as [it [Hit He]].
        exists (if App.has_email key it
                then App.Entry (App.e_name it) (App.e_email it) (S (App.e_count it))
                else it).
        split; [apply in_map_iff; now exists it|].
        now destruct (App.has_email key it).
  - pose proof (times_absent key Ht Hex) as Hzero.
    split; [|split].
    + rewrite map_app; simpl. apply snoc_nodup; [exact Hnd|].
      intros Hin. apply in_map_iff in Hin as [it [He Hit]].
      assert (existsb (App.has_email key) items = true).
      { apply existsb_exists. exists it. split; [exact Hit|].
        unfold App.has_email. rewrite He. apply String.eqb_refl. }
      congruence.
    + intros it Hin. apply in_app_or in Hin as [Hin|[<-|[]]].
      * destruct (Hcount it Hin) as [Hc H1]. rewrite times_cons with (key := key) by exact Hk.
        destruct (String.eqb key (App.e_email it)) eqn:E; simpl; [|lia].
        apply String.eqb_eq in E.
        assert (existsb (App.has_email key) items = true).
        { apply existsb_exists. exists it. split; [exact Hin|].
          unfold App.has_email. rewrite E. apply String.eqb_refl. }
        congruence.
      * simpl. rewrite times_cons with (key := key) by exact Hk. rewrite String.eqb_refl, Hzero. lia.
    + intros g' k [<-|Hin] Hk'.
      * assert (k = key) as -> by congruence.
        exists (App.Entry name key 1). split; [|reflexivity].
        apply in_or_app. right. now left.
      * destruct (Hall g' k Hin Hk') as [it [Hit He]].
        exists it. split; [|exact He]. apply in_or_app. now left.
Qed.

Lemma tally_tallied : forall data processed items0 items,
  (App.tallied lower) processed items0 ->
  App.tally lower data items0 = Return items ->
  (App.tallied lower) (rev data ++ processed) items /\
  Forall (fun g => exists k, (App.key_of lower) g = Return k) data.
Proof.
  induction data as [|g data IH]; simpl; intros processed items0 items Ht H.
  - inversion H; subst. split; [exact Ht|constructor].
  - destruct ((App.key_of lower) g) as [key|ex] eqn:Hk; [|discriminate].
    destruct (IH _ _ _ (@count_up_tallied g key _ processed items0 Hk Ht) H)
      as [Hfin Hall].
    rewrite <- app_assoc. simpl. split; [exact Hfin|].
    constructor; [now exists key|exact Hall].
Qed.

Lemma tally_raises : forall data items0,
  Exists (fun g => exists ex, (App.key_of lower) g = Raise ex) data ->
  exists ex, App.tally lower data items0 = Raise ex.
Proof.
  induction data as [|g data IH]; simpl; intros items0 H; [inversion H|].
  destruct ((App.key_of lower) g) as [key|ex] eqn:Hk; [|now exists ex].
  inversion H as [? ? [ex Hex]|? ? Hrest]; subst; [congruence|].
  now apply IH.
Qed.

Lemma times_rev k data : (App.times lower) k (rev data ++ []) = (App.times lower) k data.
Proof.
  unfold App.times. rewrite app_nil_r.
  induction data as [|g data IH]; simpl; [reflexivity|].
  rewrite filter_app, length_app; simpl.
  destruct ((App.counts_for lower) k g); simpl; lia.
Qed.

(** X19. When every e-mail field is a string or a false value, the
    leaderboard answers 200 with at most ten items, by falling count, with
    distinct keys; an item's count is the number of grievances with its key
    and is at least 1; and a key that is left out has no more grievances than
    any item listed.  When some e-mail field is a true value that is not a
    string, it answers 500 with no item. *)
Theorem leaderboard_top_ten (data : list App.grievance) :
  let resp := App.api_grievance_leaderboard lower data in
  (Forall (fun g => exists k, (App.key_of lower) g = Return k) data ->
   App.status_code resp = 200%nat /\ App.ok resp = true /\
   (length (App.items resp) <= 10)%nat /\
   StronglySorted App.falling (App.items resp) /\
   NoDup (map App.e_email (App.items resp)) /\
   (forall it, In it (App.items resp) ->
      App.e_count it = (App.times lower) (App.e_email it) data /\ (1 <= App.e_count it)%nat) /\
   (forall g k, In g data -> (App.key_of lower) g = Return k ->
      (exists it, In it (App.items resp) /\ App.e_email it = k) \/
      (forall it, In it (App.items resp) -> ((App.times lower) k data <= App.e_count it)%nat))) /\
  (Exists (fun g => exists ex, (App.key_of lower) g = Raise ex) data ->
   App.status_code resp = 500%nat /\ App.ok resp = false /\ App.items resp = []).
Proof.
  intros resp. unfold resp, App.api_grievance_leaderboard. split.
  - intros Hok.
    destruct (App.tally lower data []) as [items|ex] eqn:Htally.
    2: { exfalso. clear - Hok Htally. revert Htally. generalize (@nil App.entry).
         induction Hok as [|g data [k Hk] _ IH]; simpl; intros items0;
           [discriminate|].
         rewrite Hk. apply IH. }
    cbn [App.status_code App.ok App.items].
    assert (Hbase : (App.tallied lower) [] []).
    { split; [constructor|]. split; [intros it []|intros g k []]. }
    destruct (tally_tallied _ Hbase Htally) as [[Hnd [Hcount Hall]] _].
    set (sorted := App.sorted_by_count items).
    assert (Hperm : Permutation items sorted) by apply sorted_by_count_perm.
    assert (Hsorted : StronglySorted App.falling (firstn 10 sorted ++ skipn 10 sorted))
      by (rewrite firstn_skipn; apply sorted_by_count_sorted).
    destruct (strongly_sorted_app _ _ Hsorted) as [Htop Hcross].
    assert (Hsub : forall it, In it (firstn 10 sorted) -> In it items).
    { intros it Hin. apply (Permutation_in _ (Permutation_sym Hperm)).
      rewrite <- (firstn_skipn 10 sorted). apply in_or_app. now left. }
    split; [reflexivity|]. split; [reflexivity|].
    split; [apply firstn_le_length|]. split; [exact Htop|]. split; [|split].
    + assert (Hnd' : NoDup (map App.e_email sorted))
        by (eapply Permutation_NoDup; [apply Permutation_map, Hperm|exact Hnd]).
      rewrite <- (firstn_skipn 10 sorted), map_app in Hnd'.
      now apply NoDup_app_remove_r in Hnd'.
    + intros it Hin. destruct (Hcount it (Hsub it Hin)) as [Hc H1].
      rewrite times_rev in Hc. now split.
    + intros g k Hg Hk.
      destruct (Hall g k) as [it [Hit He]];
        [rewrite app_nil_r; now apply in_rev in Hg|exact Hk|].
      apply (Permutation_in _ Hperm) in Hit.
      rewrite <- (firstn_skipn 10 sorted) in Hit.
      apply in_app_or in Hit as [Hit|Hit]; [left; now exists it|].
      right. intros it' Hin'. pose proof (Hcross it' it Hin' Hit) as Hle.
      assert (Hitems : In it items).
      { apply (Permutation_in _ (Permutation_sym Hperm)).
        rewrite <- (firstn_skipn 10 sorted). apply in_or_app. now right. }
      destruct (Hcount it Hitems) as [Hc _]. rewrite times_rev, He in Hc.
      unfold App.falling in Hle. lia.
  - intros Hbad. destruct (tally_raises [] Hbad) as [ex ->]. now repeat split.
Qed.

End LeaderboardLemmas.
Lemma auto_fetch_attempts_witness :
  let '(res, calls) :=
    Scheduler.auto_fetch_images (fun _ => true) (fun i => (i =? 2)%nat) in
  calls = 3%nat /\ res = Some true.
Proof.
  pose proof (@auto_fetch_attempts (fun _ => true) (fun i => (i =? 2)%nat)) as H.
  destruct (Scheduler.auto_fetch_images (fun _ => true) (fun i => (i =? 2)%nat))
    as [res calls] eqn:E.
  vm_compute in E. injection E as Hres Hcalls. subst calls.
  destruct H as [_ [_ [Hiff _]]].
  split; [reflexivity|]. apply Hiff. reflexivity.
Defined.

Lemma leaderboard_top_ten_witness :
  let data := [App.Grievance (App.PyStr "a@x") (App.PyStr "A");
               App.Grievance App.PyNone App.PyNone;
               App.Grievance (App.PyStr "a@x") App.PyNone] in
  let resp := App.api_grievance_leaderboard (fun s => s) data in
  App.status_code resp = 200%nat /\
  (length (App.items resp) <= 10)%nat /\
  App.status_code
    (App.api_grievance_leaderboard (fun s => s)
       [App.Grievance (App.PyOther true) App.PyNone]) = 500%nat.
Proof.
  intros data resp.
  destruct (@leaderboard_top_ten (fun s => s) data) as [Hok _].
  destruct (@leaderboard_top_ten (fun s => s)
              [App.Grievance (App.PyOther true) App.PyNone]) as [_ Hbad].
  destruct Hok as [Hs [_ [Hlen _]]].
  { repeat constructor; eexists; reflexivity. }
  destruct Hbad as [Hs' _].
  { constructor. eexists. reflexivity. }
  split; [exact Hs|]. split; [exact Hlen|exact Hs'].
Defined.

(* ------------------------------------------------------------------ *)
(** ** Images kept in memory *)

(** X20. Without a database [_latest_image] returns the image appended last
    among those with the tag: an image appended with the tag is the one
    returned next, an image appended with another tag changes nothing, and
    the answer is [None] exactly when no image has the tag. *)
Theorem latest_image_is_last_appended (P : Type) (t : string)
    (images : list (App.image_doc P)) (it : App.image_doc P) :
  (App.tagged t it = true -> App._latest_image t (images ++ [it]) = Some it) /\
  (App.tagged t it = false ->
   App._latest_image t (images ++ [it]) = App._latest_image t images) /\
  (App._latest_image t images = None <->
   Forall (fun d => App.tagged t d = false) images) /\
  (forall d, App._latest_image t images = Some d ->
     exists before after,
       images = before ++ d :: after /\ App.tagged t d = true /\
       Forall (fun d' => App.tagged t d' = false) after).
Proof.
  unfold App._latest_image. rewrite rev_app_distr; simpl.
  split; [intros ->; reflexivity|]. split; [intros ->; reflexivity|]. split.
  - split.
    + intros Hnone. apply Forall_forall. intros d Hd.
      apply (find_none _ _ Hnone). now apply in_rev in Hd.
    + intros Hall. destruct (find _ _) as [d|] eqn:Hf; [|reflexivity].
      apply find_some in Hf as [Hin Ht]. apply in_rev in Hin.
      rewrite Forall_forall in Hall. rewrite (Hall d Hin) in Ht. discriminate.
  - intros d Hf.
    assert (Hgen : forall l, find (App.tagged t) l = Some d ->
              exists pre post, l = pre ++ d :: post /\ App.tagged t d = true /\
                               Forall (fun d' => App.tagged t d' = false) pre).
    { induction l as [|x l IH]; simpl; [discriminate|].
      destruct (App.tagged t x) eqn:Hx.
      - intros [= ->]. exists [], l. repeat split; auto.
      - intros H. destruct (IH H) as [pre [post [-> [Hd Hpre]]]].
        exists (x :: pre), post. repeat split; auto. }
    destruct (Hgen _ Hf) as [pre [post [Hrev [Hd Hpre]]]].
    exists (rev post), (rev pre). repeat split; [|exact Hd|].
    + rewrite <- (rev_involutive images), Hrev, rev_app_distr; simpl.
      now rewrite <- app_assoc.
    + apply Forall_forall. intros d' Hd'. apply in_rev in Hd'.
      rewrite Forall_forall in Hpre. now apply Hpre.
Qed.

Lemma latest_image_is_last_appended_witness :
  App._latest_image "manual_new"
    ([App.ImageDoc (Some "manual_new"%string) 1%nat;
      App.ImageDoc (Some "manual_old"%string) 2%nat] ++
     [App.ImageDoc (Some "manual_new"%string) 3%nat]) =
    Some (App.ImageDoc (Some "manual_new"%string) 3%nat).
Proof.
  destruct (@latest_image_is_last_appended nat "manual_new"
              [App.ImageDoc (Some "manual_new"%string) 1%nat;
               App.ImageDoc (Some "manual_old"%string) 2%nat]
              (App.ImageDoc (Some "manual_new"%string) 3%nat)) as [Hnew _].
  now apply Hnew.
Defined.
